(** * libv: the vectors [v::vec<T, N>] and [v::vec3<T>]

    A shallow embedding of [include/vec.hpp] and [include/vec3.hpp].

    Every vector object is its single data member [std::array<T, N> p],
    kept in a store of live objects.  Member functions take the address of
    their receiver, [const vec&] parameters are addresses, [const T&]
    parameters are references that may point into a stored vector, by-value
    parameters are fresh copies that die when the call returns, and a
    function that returns a reference returns an address.

    The element type [T] is an interface ([Elem]) with the operations the
    headers apply to it; [int] and [double] are its two instances here.

    A call the compiler rejects has the outcome [IllFormed].  What leads
    there in the headers:
    - [p.first()], [p.second()] and [p.last()]: [std::array] has [begin]
      and [end] and no member of these names, so every member function
      that names one, and every function that calls such a member, cannot
      be instantiated;
    - [lhs.p] and [rhs.p] in the free comparison operators: [p] is a
      private member and the operators are no friends;
    - what a [return] has to initialise: a vector from one [T] (the free
      [dot]), a [vec] from a braced list ([vec::cross]);
    - [a + s] and [a - s] on a vector and a [T]: no such operator is
      declared.
    [impl::throw_out_of_range] is the branch under [__cpp_exceptions]: the
    other branch calls an unqualified [terminate()], which names nothing in
    [v::impl], so without exceptions vec3.hpp does not compile at all.
    [vec<T, N>] is modelled for every [N]; the declaration of [cross]
    ([enable_if_t<N == 3, vec>] as the return type of a member that is no
    template) lets the class be instantiated at [N = 3] only. *)

From Stdlib Require Import ZArith PrimFloat Uint63.
From stdpp Require Import base option list gmap strings.

(** ** Element types *)

(** What the two headers ask of [T]. *)
Class Elem (T : Type) := {
  tzero : T;                    (* value_type{} *)
  tadd : T → T → T;             (* a + b, a += b *)
  tsub : T → T → T;             (* a - b, a -= b *)
  tmul : T → T → T;             (* a * b, a *= b, std::multiplies *)
  tdiv : T → T → T;             (* a / b, a /= b *)
  tsqrt : T → T;                (* std::sqrt(a), converted to T on return *)
  tdiv_size : T → N → T;        (* a / n for n a std::size_t, converted to T on return *)
  tdiv_int : T → Z → T;         (* a / k for k an int, converted to T on return *)
  tlt : T → T → bool;           (* a < b *)
  teq : T → T → bool;           (* a == b *)
}.

(** [int]: 32 bits, two's complement; [std::size_t]: 64 bits.  Signed
    overflow, division by zero, [INT_MIN / -1] and the square root of a
    negative number are undefined in C++.  The instance is what C++
    defines wherever C++ defines the result; on the undefined inputs it
    takes the values [Z] computes (wrapped, 0, wrapped and 0); the
    examples on [int] below are at inputs where the result is defined. *)
Definition int_wrap (z : Z) : Z := ((z + 2 ^ 31) mod 2 ^ 32 - 2 ^ 31)%Z.

Definition size_wrap (z : Z) : Z := (z mod 2 ^ 64)%Z.

(** [a / n] with [a : int] and [n : std::size_t]: the usual arithmetic
    conversions turn [a] into a [std::size_t], the quotient is unsigned, and
    [return] converts it back to [int]. *)
Definition int_div_size (a : Z) (n : N) : Z :=
  int_wrap (size_wrap a / Z.of_N n).

#[export] Instance int_elem : Elem Z := {|
  tzero := 0%Z;
  tadd a b := int_wrap (a + b);
  tsub a b := int_wrap (a - b);
  tmul a b := int_wrap (a * b);
  tdiv a b := int_wrap (a ÷ b);
  tsqrt a := Z.sqrt a;
  tdiv_size := int_div_size;
  tdiv_int a k := int_wrap (a ÷ k);
  tlt := Z.ltb;
  teq := Z.eqb;
|}.

(** [double]: IEEE 754 binary64. *)
Definition double_of_Z (k : Z) : float :=
  if (k <? 0)%Z then PrimFloat.opp (PrimFloat.of_uint63 (Uint63.of_Z (- k)))
  else PrimFloat.of_uint63 (Uint63.of_Z k).

#[export] Instance double_elem : Elem float := {|
  tzero := 0%float;
  tadd := PrimFloat.add;
  tsub := PrimFloat.sub;
  tmul := PrimFloat.mul;
  tdiv := PrimFloat.div;
  tsqrt := PrimFloat.sqrt;
  tdiv_size a n := PrimFloat.div a (double_of_Z (Z.of_N n));
  tdiv_int a k := PrimFloat.div a (double_of_Z k);
  tlt := PrimFloat.ltb;
  teq := PrimFloat.eqb;
|}.

(** ** Objects, references and outcomes *)

Definition loc := nat.

(** [std::out_of_range(what)]. *)
Inductive exn := out_of_range (what : string).

(** A [T&] or [const T&]: bound to a [T] that lives outside the vectors
    ([Val]), or to element [i] of the vector at [l] ([Elt]). *)
Inductive tref (T : Type) :=
  | Val (t : T)
  | Elt (l : loc) (i : nat).
Arguments Val {T} t.
Arguments Elt {T} l i.

(** How a call ends: with a result, with an exception in flight, with
    undefined behaviour, or not at all because the call is ill-formed. *)
Inductive outcome (T A : Type) :=
  | Ok (a : A) (h : gmap loc (list T))
  | Throw (e : exn) (h : gmap loc (list T))
  | Undefined
  | IllFormed.
Arguments Ok {T A} a h.
Arguments Throw {T A} e h.
Arguments Undefined {T A}.
Arguments IllFormed {T A}.

Definition M (T A : Type) := gmap loc (list T) → outcome T A.

Definition ret {T A} (a : A) : M T A := λ h, Ok a h.

Definition bind {T A B} (m : M T A) (k : A → M T B) : M T B := λ h,
  match m h with
  | Ok a h' => k a h'
  | Throw e h' => Throw e h'
  | Undefined => Undefined
  | IllFormed => IllFormed
  end.

#[export] Instance M_ret {T} : MRet (M T) := @ret T.
#[export] Instance M_bind {T} : MBind (M T) := λ A B k m, bind m k.

Definition raise {T A} (e : exn) : M T A := λ h, Throw e h.
Definition undefined {T A} : M T A := λ _, Undefined.
Definition ill_formed {T A} : M T A := λ _, IllFormed.

(** The whole array of the vector at [l]; reading a dead object is undefined. *)
Definition read {T} (l : loc) : M T (list T) := λ h,
  match h !! l with Some p => Ok p h | None => Undefined end.

Definition write {T} (l : loc) (p : list T) : M T () := λ h,
  match h !! l with Some _ => Ok () (<[l:=p]> h) | None => Undefined end.

(** [p[i]] as an rvalue. *)
Definition load {T} (l : loc) (i : nat) : M T T :=
  p ← read l; from_option ret undefined (p !! i).

(** [p[i] = t]. *)
Definition store {T} (l : loc) (i : nat) (t : T) : M T () :=
  p ← read l; if decide (i < length p) then write l (<[i:=t]> p) else undefined.

Definition deref {T} (r : tref T) : M T T :=
  match r with Val t => ret t | Elt l i => load l i end.

(** A new object: a by-value parameter or a temporary. *)
Definition alloc {T} (p : list T) : M T loc := λ h,
  let l := fresh (dom h) in Ok l (<[l:=p]> h).

(** The end of an object's lifetime. *)
Definition destroy {T} (l : loc) : M T () := λ h, Ok () (delete l h).

(** A parameter of vector type passed by value: copy-initialised from the
    argument at [a], alive during the body, destroyed on return. *)
Definition by_value {T A} (a : loc) (body : loc → M T A) : M T A :=
  p ← read a; v ← alloc p; r ← body v; destroy v;; ret r.

(** The operand of a [return] in a function whose result is a vector by
    value: a vector expression, or an expression of type [T]. *)
Inductive operand (T : Type) :=
  | of_vector (r : loc)
  | of_element (t : T).
Arguments of_vector {T} r.
Arguments of_element {T} t.

(** Copy-initialisation of the returned vector.  Both classes have the
    implicit copy constructor; [vec3] adds [vec3()] and [vec3(x, y, z)], and
    [vec] declares none: nothing converts one [T] into a vector. *)
Definition return_vector {T} (o : operand T) : M T (list T) :=
  match o with
  | of_vector r => read r
  | of_element _ => ill_formed
  end.

(** [for(size_type i = first; i < first + count; ++i) body(i)]. *)
Fixpoint for_range {T} (first count : nat) (body : nat → M T ()) : M T () :=
  match count with
  | 0 => ret ()
  | S c => body first;; for_range (S first) c body
  end.

Definition lift {T A} (o : option A) : M T A := from_option ret undefined o.

(** [p[i] op= e]. *)
Definition update {T} (this : loc) (i : nat) (op : T → T → T) (e : M T T) : M T () :=
  b ← e; a ← load this i; store this i (op a b).

(** ** The standard algorithms the headers call *)

Section algorithms.
Context `{Elem T}.

(** The elements of the half-open range [[first, last)] of the array [p]. *)
Definition range (p : list T) (first last : nat) : option (list T) :=
  if decide (first ≤ last ≤ length p) then Some (take (last - first) (drop first p))
  else None.

(** [std::accumulate(first, last, init, op)]:
    [for (; first != last; ++first) init = op(init, *first); return init;] *)
Fixpoint accumulate (r : list T) (init : T) (op : T → T → T) : T :=
  match r with
  | [] => init
  | x :: r' => accumulate r' (op init x) op
  end.

(** [std::transform_reduce(first1, last1, first2, init)].  The standard
    leaves the grouping of the sum open; the embedding takes the order of
    the plain loop,
    [for (; first1 != last1; ++first1, ++first2) init = init + *first1 * *first2;].
    [r2] is what lies from [first2] on; running off its end is undefined. *)
Fixpoint transform_reduce (r1 r2 : list T) (init : T) : option T :=
  match r1, r2 with
  | [], _ => Some init
  | x :: r1', y :: r2' => transform_reduce r1' r2' (tadd init (tmul x y))
  | _ :: _, [] => None
  end.

(** [std::min_element(first, last)] as an offset from [first]:
    [smallest = first; while (++first != last) if ( *first < *smallest ) smallest = first;].
    On an empty range the result is [last]. *)
Fixpoint min_element_from (smallest : T) (at_smallest i : nat) (r : list T) : nat :=
  match r with
  | [] => at_smallest
  | x :: r' =>
      if tlt x smallest then min_element_from x i (S i) r'
      else min_element_from smallest at_smallest (S i) r'
  end.

Definition min_element (r : list T) : nat :=
  match r with [] => 0 | x :: r' => min_element_from x 0 1 r' end.

(** [std::max_element(first, last)]:
    [largest = first; while (++first != last) if ( *largest < *first ) largest = first;]. *)
Fixpoint max_element_from (largest : T) (at_largest i : nat) (r : list T) : nat :=
  match r with
  | [] => at_largest
  | x :: r' =>
      if tlt largest x then max_element_from x i (S i) r'
      else max_element_from largest at_largest (S i) r'
  end.

Definition max_element (r : list T) : nat :=
  match r with [] => 0 | x :: r' => max_element_from x 0 1 r' end.

(** [std::array]'s [operator==]: [std::equal] over the two arrays. *)
Fixpoint equal (r1 r2 : list T) : bool :=
  match r1, r2 with
  | [], _ => true
  | x :: r1', y :: r2' => if teq x y then equal r1' r2' else false
  | _ :: _, [] => false
  end.

(** [std::array]'s [operator<]: [std::lexicographical_compare]:
    [for (; first1 != last1 && first2 != last2; ++first1, ++first2) {
       if ( *first1 < *first2 ) return true;
       if ( *first2 < *first1 ) return false; }
     return first1 == last1 && first2 != last2;] *)
Fixpoint lexicographical_compare (r1 r2 : list T) : bool :=
  match r1, r2 with
  | x :: r1', y :: r2' =>
      if tlt x y then true
      else if tlt y x then false
      else lexicographical_compare r1' r2'
  | [], _ :: _ => true
  | _, [] => false
  end.

(** The braced list both [cross] functions return:
    [{ (p[1] * o.p[2]) - (p[2] * o.p[1]),
       (p[2] * o.p[0]) - (p[0] * o.p[2]),
       (p[0] * o.p[1]) - (p[1] * o.p[0]) }]. *)
Definition cross_list (a0 a1 a2 b0 b1 b2 : T) : list T :=
  [tsub (tmul a1 b2) (tmul a2 b1);
   tsub (tmul a2 b0) (tmul a0 b2);
   tsub (tmul a0 b1) (tmul a1 b0)].

End algorithms.

(** ** [v::vec3<T>] (vec3.hpp) *)

Module vec3.
Section vec3.
Context `{Elem T}.

(** [impl::throw_out_of_range(s)]: [throw std::out_of_range(s);], the
    branch under [defined(__cpp_exceptions)].  (The [#else] branch,
    [(void)s; terminate();], names no declaration.) *)
Definition throw_out_of_range {A} (s : string) : M T A :=
  raise (out_of_range s).

(** [p.first()], [p.last()]: no members of [std::array<T, 3>]. *)
Definition p_first : M T nat := ill_formed.
Definition p_last : M T nat := ill_formed.

(** [v.p] named in a function that is neither a member nor a friend of
    [vec3]: [p] is private. *)
Definition private_p (v : loc) : M T (list T) := ill_formed.

(** [std::array<T, 3>::operator[]], unchecked. *)
Definition p_subscript (this : loc) (n : nat) : M T (tref T) :=
  if decide (n < 3) then ret (Elt this n) else undefined.

(** [vec3(const_reference x, const_reference y, const_reference z): p{x, y, z}{}] *)
Definition construct (x y z : tref T) : M T loc :=
  a ← deref x; b ← deref y; c ← deref z; alloc [a; b; c].

(** [void swap(vec3& other)]. *)
Definition swap (this other : loc) : M T () :=
  a ← read this; b ← read other; write this b;; write other a.

(** [void fill(const_reference u)]. *)
Definition fill (this : loc) (u : tref T) : M T () :=
  for_range 0 3 (λ i, t ← deref u; store this i t).

(** [reference x()], [y()], [z()] and their const overloads. *)
Definition x (this : loc) : M T (tref T) := p_subscript this 0.
Definition y (this : loc) : M T (tref T) := p_subscript this 1.
Definition z (this : loc) : M T (tref T) := p_subscript this 2.

(** [void x(const_reference v)], [y(v)], [z(v)]. *)
Definition set_x (this : loc) (v : tref T) : M T () := t ← deref v; store this 0 t.
Definition set_y (this : loc) (v : tref T) : M T () := t ← deref v; store this 1 t.
Definition set_z (this : loc) (v : tref T) : M T () := t ← deref v; store this 2 t.

(** [value_type magnitude2() const]. *)
Definition magnitude2 (this : loc) : M T T :=
  a ← load this 0; b ← load this 1; c ← load this 2;
  ret (tadd (tadd (tmul a a) (tmul b b)) (tmul c c)).

(** [const value_type magnitude() const]. *)
Definition magnitude (this : loc) : M T T :=
  m ← magnitude2 this; ret (tsqrt m).

(** [const vec3& operator-=(const vec3& rhs)] and the three like it. *)
Definition minus_assign (this rhs : loc) : M T loc :=
  update this 0 tsub (load rhs 0);;
  update this 1 tsub (load rhs 1);;
  update this 2 tsub (load rhs 2);;
  ret this.

Definition plus_assign (this rhs : loc) : M T loc :=
  update this 0 tadd (load rhs 0);;
  update this 1 tadd (load rhs 1);;
  update this 2 tadd (load rhs 2);;
  ret this.

Definition times_assign (this v : loc) : M T loc :=
  update this 0 tmul (load v 0);;
  update this 1 tmul (load v 1);;
  update this 2 tmul (load v 2);;
  ret this.

Definition divide_assign (this v : loc) : M T loc :=
  update this 0 tdiv (load v 0);;
  update this 1 tdiv (load v 1);;
  update this 2 tdiv (load v 2);;
  ret this.

(** [const vec3& operator*=(const_reference v)], [operator/=(const_reference v)]. *)
Definition times_assign_scalar (this : loc) (v : tref T) : M T loc :=
  update this 0 tmul (deref v);;
  update this 1 tmul (deref v);;
  update this 2 tmul (deref v);;
  ret this.

Definition divide_assign_scalar (this : loc) (v : tref T) : M T loc :=
  update this 0 tdiv (deref v);;
  update this 1 tdiv (deref v);;
  update this 2 tdiv (deref v);;
  ret this.

(** [const vec3& normalize() { return *this /= magnitude(); }] *)
Definition normalize (this : loc) : M T loc :=
  m ← magnitude this; divide_assign_scalar this (Val m).

(** [const value_type sum() const]. *)
Definition sum (this : loc) : M T T :=
  a ← load this 0; b ← load this 1; c ← load this 2;
  ret (tadd (tadd a b) c).

(** [value_type mean() const { return sum() / 3; }] *)
Definition mean (this : loc) : M T T :=
  s ← sum this; ret (tdiv_int s 3).

(** [const value_type dot(const vec3& o) const]. *)
Definition dot (this o : loc) : M T T :=
  a0 ← load this 0; b0 ← load o 0;
  a1 ← load this 1; b1 ← load o 1;
  a2 ← load this 2; b2 ← load o 2;
  ret (tadd (tadd (tmul a0 b0) (tmul a1 b1)) (tmul a2 b2)).

(** [constexpr const vec3& cross(const vec3& o) const { return { ... }; }]
    The braced list initialises a temporary [vec3]; the returned reference
    is bound to it; the temporary is destroyed when the [return] statement
    ends. *)
Definition cross (this o : loc) : M T loc :=
  a0 ← load this 0; a1 ← load this 1; a2 ← load this 2;
  b0 ← load o 0; b1 ← load o 1; b2 ← load o 2;
  t ← alloc (cross_list a0 a1 a2 b0 b1 b2);
  destroy t;;
  ret t.

(** [const value_type prod() const]. *)
Definition prod (this : loc) : M T T :=
  a ← load this 0; b ← load this 1; c ← load this 2;
  ret (tmul (tmul a b) c).

(** [return *std::min_element(p.first(), p.last());] and [max]. *)
Definition min (this : loc) : M T T :=
  first ← p_first; last ← p_last;
  p ← read this; r ← lift (range p first last); load this (first + min_element r).

Definition max (this : loc) : M T T :=
  first ← p_first; last ← p_last;
  p ← read this; r ← lift (range p first last); load this (first + max_element r).

(** [reference operator[](size_type n)] and its const overload. *)
Definition subscript (this : loc) (n : nat) : M T (tref T) := p_subscript this n.

(** [reference at(size_type n)] and its const overload:
    [if(n >= 3) impl::throw_out_of_range("v::vec3::at"); return p[n];] *)
Definition at_ (this : loc) (n : nat) : M T (tref T) :=
  (if decide (3 ≤ n) then throw_out_of_range "v::vec3::at" else ret ());;
  p_subscript this n.

(** [vec3<T> normalize(vec3<T> v) { return v.normalize(); }] *)
Definition normalize_free (a : loc) : M T (list T) :=
  by_value a (λ v, r ← normalize v; return_vector (of_vector r)).

(** [vec3<T> dot(vec3<T> a, const vec3<T>& b) { return a.dot(b); }] *)
Definition dot_free (a b : loc) : M T (list T) :=
  by_value a (λ a', d ← dot a' b; return_vector (of_element d)).

(** [vec3<T> operator+(vec3<T> lhs, const vec3<T>& rhs) { return lhs += rhs; }]
    and the three like it. *)
Definition operator_plus (a rhs : loc) : M T (list T) :=
  by_value a (λ lhs, r ← plus_assign lhs rhs; return_vector (of_vector r)).

Definition operator_minus (a rhs : loc) : M T (list T) :=
  by_value a (λ lhs, r ← minus_assign lhs rhs; return_vector (of_vector r)).

Definition operator_times (a rhs : loc) : M T (list T) :=
  by_value a (λ lhs, r ← times_assign lhs rhs; return_vector (of_vector r)).

Definition operator_divide (a rhs : loc) : M T (list T) :=
  by_value a (λ lhs, r ← divide_assign lhs rhs; return_vector (of_vector r)).

(** [vec3<T> operator*(vec3<T> lhs, const T& rhs)], [operator/]. *)
Definition operator_times_scalar (a : loc) (rhs : tref T) : M T (list T) :=
  by_value a (λ lhs, r ← times_assign_scalar lhs rhs; return_vector (of_vector r)).

Definition operator_divide_scalar (a : loc) (rhs : tref T) : M T (list T) :=
  by_value a (λ lhs, r ← divide_assign_scalar lhs rhs; return_vector (of_vector r)).

(** [bool operator==(const vec3<T>& lhs, const vec3<T>& rhs) { return lhs.p == rhs.p; }] *)
Definition operator_eq (lhs rhs : loc) : M T bool :=
  a ← private_p lhs; b ← private_p rhs; ret (equal a b).

(** [return !(lhs == rhs);] *)
Definition operator_ne (lhs rhs : loc) : M T bool :=
  e ← operator_eq lhs rhs; ret (negb e).

(** [return lhs.p < rhs.p;] *)
Definition operator_lt (lhs rhs : loc) : M T bool :=
  a ← private_p lhs; b ← private_p rhs; ret (lexicographical_compare a b).

(** [return rhs < lhs;] *)
Definition operator_gt (lhs rhs : loc) : M T bool := operator_lt rhs lhs.

(** [return !(lhs > rhs);] *)
Definition operator_le (lhs rhs : loc) : M T bool :=
  g ← operator_gt lhs rhs; ret (negb g).

(** [return !(lhs < rhs);] *)
Definition operator_ge (lhs rhs : loc) : M T bool :=
  l ← operator_lt lhs rhs; ret (negb l).

End vec3.
End vec3.

(** ** [v::vec<T, N>] (vec.hpp) *)

Module vec.
Section vec.
Context `{Elem T}.

(** The template parameter [std::size_t N]. *)
Variable N : nat.

(** [p.first()], [p.second()], [p.last()]: no members of
    [std::array<T, N>]. *)
Definition p_first : M T nat := ill_formed.
Definition p_second : M T nat := ill_formed.
Definition p_last : M T nat := ill_formed.

(** [v.p] named in a function that is neither a member nor a friend of
    [vec]: [p] is private. *)
Definition private_p (v : loc) : M T (list T) := ill_formed.

(** A [vec] initialised from a braced list of elements: [vec] has a
    private data member, so it is no aggregate, and it declares no
    constructor. *)
Definition from_braced_list (elements : M T (list T)) : M T loc := ill_formed.

(** [std::array<T, N>::operator[]], unchecked. *)
Definition p_subscript (this : loc) (n : nat) : M T (tref T) :=
  if decide (n < N) then ret (Elt this n) else undefined.

(** [void swap(vec& other)]. *)
Definition swap (this other : loc) : M T () :=
  a ← read this; b ← read other; write this b;; write other a.

(** [void fill(const_reference u)]. *)
Definition fill (this : loc) (u : tref T) : M T () :=
  for_range 0 N (λ i, t ← deref u; store this i t).

(** [return std::transform_reduce(p.first(), p.last(), p.first(), value_type{});] *)
Definition magnitude2 (this : loc) : M T T :=
  first1 ← p_first; last1 ← p_last; first2 ← p_first;
  p ← read this; r ← lift (range p first1 last1);
  lift (transform_reduce r (drop first2 p) tzero).

(** [return std::sqrt(magnitude2());] *)
Definition magnitude (this : loc) : M T T :=
  m ← magnitude2 this; ret (tsqrt m).

(** [const vec& operator+=(const vec& rhs)] and the three like it:
    [for(size_type i = 0; i < N; ++i){ p[i] += rhs.p[i]; } return *this;] *)
Definition plus_assign (this rhs : loc) : M T loc :=
  for_range 0 N (λ i, update this i tadd (load rhs i));; ret this.

Definition minus_assign (this rhs : loc) : M T loc :=
  for_range 0 N (λ i, update this i tsub (load rhs i));; ret this.

Definition times_assign (this rhs : loc) : M T loc :=
  for_range 0 N (λ i, update this i tmul (load rhs i));; ret this.

Definition divide_assign (this rhs : loc) : M T loc :=
  for_range 0 N (λ i, update this i tdiv (load rhs i));; ret this.

(** [const vec& operator*=(const_reference v)], [operator/=(const_reference v)]. *)
Definition times_assign_scalar (this : loc) (v : tref T) : M T loc :=
  for_range 0 N (λ i, update this i tmul (deref v));; ret this.

Definition divide_assign_scalar (this : loc) (v : tref T) : M T loc :=
  for_range 0 N (λ i, update this i tdiv (deref v));; ret this.

(** [const vec& normalize() { return *this /= magnitude(); }] *)
Definition normalize (this : loc) : M T loc :=
  m ← magnitude this; divide_assign_scalar this (Val m).

(** [return std::accumulate(p.first(), p.second(), value_type{});] *)
Definition sum (this : loc) : M T T :=
  first ← p_first; last ← p_second;
  p ← read this; r ← lift (range p first last); ret (accumulate r tzero tadd).

(** [value_type mean() const { return sum() / N; }] *)
Definition mean (this : loc) : M T T :=
  s ← sum this; ret (tdiv_size s (N.of_nat N)).

(** [return std::transform_reduce(p.first(), p.last(), o.p.first(), value_type{});] *)
Definition dot (this o : loc) : M T T :=
  first1 ← p_first; last1 ← p_last; first2 ← p_first;
  p ← read this; q ← read o;
  r ← lift (range p first1 last1); lift (transform_reduce r (drop first2 q) tzero).

(** [constexpr const std::enable_if_t<N == 3, vec>& cross(const vec& o) const
    { return { ... }; }]: the braced list has to initialise the [vec] that
    the returned reference is bound to. *)
Definition cross (this o : loc) : M T loc :=
  t ← from_braced_list
        (a0 ← load this 0; a1 ← load this 1; a2 ← load this 2;
         b0 ← load o 0; b1 ← load o 1; b2 ← load o 2;
         ret (cross_list a0 a1 a2 b0 b1 b2));
  destroy t;;
  ret t.

(** [return std::accumulate(++p.first(), p.last(), *p.first(),
                            std::multiplies<value_type>{});] *)
Definition prod (this : loc) : M T T :=
  first ← p_first; last ← p_last; seed ← p_first;
  p ← read this; r ← lift (range p (S first) last); init ← load this seed;
  ret (accumulate r init tmul).

(** [return *std::min_element(p.first(), p.last());] and [max]. *)
Definition min (this : loc) : M T T :=
  first ← p_first; last ← p_last;
  p ← read this; r ← lift (range p first last); load this (first + min_element r).

Definition max (this : loc) : M T T :=
  first ← p_first; last ← p_last;
  p ← read this; r ← lift (range p first last); load this (first + max_element r).

(** [reference operator[](size_type n)] and its const overload. *)
Definition subscript (this : loc) (n : nat) : M T (tref T) := p_subscript this n.

(** [vec<T, N> normalize(vec<T, N> v) { return v.normalize(); }] *)
Definition normalize_free (a : loc) : M T (list T) :=
  by_value a (λ v, r ← normalize v; return_vector (of_vector r)).

(** [vec<T, N> dot(vec<T, N> a, const vec<T, N>& b) { return a.dot(b); }] *)
Definition dot_free (a b : loc) : M T (list T) :=
  by_value a (λ a', d ← dot a' b; return_vector (of_element d)).

(** [vec<T, N> operator+(vec<T, N> lhs, const vec<T, N>& rhs) { return lhs += rhs; }]
    and the three like it. *)
Definition operator_plus (a rhs : loc) : M T (list T) :=
  by_value a (λ lhs, r ← plus_assign lhs rhs; return_vector (of_vector r)).

Definition operator_minus (a rhs : loc) : M T (list T) :=
  by_value a (λ lhs, r ← minus_assign lhs rhs; return_vector (of_vector r)).

Definition operator_times (a rhs : loc) : M T (list T) :=
  by_value a (λ lhs, r ← times_assign lhs rhs; return_vector (of_vector r)).

Definition operator_divide (a rhs : loc) : M T (list T) :=
  by_value a (λ lhs, r ← divide_assign lhs rhs; return_vector (of_vector r)).

(** [vec<T, N> operator*(vec<T, N> lhs, const T& rhs)], [operator/]. *)
Definition operator_times_scalar (a : loc) (rhs : tref T) : M T (list T) :=
  by_value a (λ lhs, r ← times_assign_scalar lhs rhs; return_vector (of_vector r)).

Definition operator_divide_scalar (a : loc) (rhs : tref T) : M T (list T) :=
  by_value a (λ lhs, r ← divide_assign_scalar lhs rhs; return_vector (of_vector r)).

(** [return lhs.p == rhs.p;] *)
Definition operator_eq (lhs rhs : loc) : M T bool :=
  a ← private_p lhs; b ← private_p rhs; ret (equal a b).

(** [return !(lhs == rhs);] *)
Definition operator_ne (lhs rhs : loc) : M T bool :=
  e ← operator_eq lhs rhs; ret (negb e).

(** [return lhs.p < rhs.p;] *)
Definition operator_lt (lhs rhs : loc) : M T bool :=
  a ← private_p lhs; b ← private_p rhs; ret (lexicographical_compare a b).

(** [return rhs < lhs;] *)
Definition operator_gt (lhs rhs : loc) : M T bool := operator_lt rhs lhs.

(** [return !(lhs > rhs);] *)
Definition operator_le (lhs rhs : loc) : M T bool :=
  g ← operator_gt lhs rhs; ret (negb g).

(** [return !(lhs < rhs);] *)
Definition operator_ge (lhs rhs : loc) : M T bool :=
  l ← operator_lt lhs rhs; ret (negb l).

End vec.
End vec.

(** ** The free arithmetic operators, as an expression [a op b] finds them *)

Inductive arith := Plus | Minus | Times | Divide.

(** What [op] means on [T]. *)
Definition arith_op `{Elem T} (o : arith) : T → T → T :=
  match o with Plus => tadd | Minus => tsub | Times => tmul | Divide => tdiv end.

(** [a op b] on two vectors: both headers declare all four operators. *)
Definition vec3_binary `{Elem T} (o : arith) (a b : loc) : M T (list T) :=
  match o with
  | Plus => vec3.operator_plus a b
  | Minus => vec3.operator_minus a b
  | Times => vec3.operator_times a b
  | Divide => vec3.operator_divide a b
  end.

Definition vec_binary `{Elem T} (N : nat) (o : arith) (a b : loc) : M T (list T) :=
  match o with
  | Plus => vec.operator_plus N a b
  | Minus => vec.operator_minus N a b
  | Times => vec.operator_times N a b
  | Divide => vec.operator_divide N a b
  end.

(** [a op s] on a vector and a [T]: both headers declare [operator*] and
    [operator/] with a [const T&] right operand and nothing else; for [+]
    and [-] no declared operator accepts a [T], and the expression is
    ill-formed. *)
Definition takes_scalar (o : arith) : bool :=
  match o with Times | Divide => true | Plus | Minus => false end.

Definition vec3_scalar `{Elem T} (o : arith) (a : loc) (s : tref T) : M T (list T) :=
  match o with
  | Times => vec3.operator_times_scalar a s
  | Divide => vec3.operator_divide_scalar a s
  | Plus | Minus => ill_formed
  end.

Definition vec_scalar `{Elem T} (N : nat) (o : arith) (a : loc) (s : tref T) :
    M T (list T) :=
  match o with
  | Times => vec.operator_times_scalar N a s
  | Divide => vec.operator_divide_scalar N a s
  | Plus | Minus => ill_formed
  end.

(** ** The public operations of the two headers, one constructor each *)

Inductive vec3_call (T : Type) :=
  | Construct3 (x y z : tref T)
  | Swap3 (this other : loc)
  | Fill3 (this : loc) (u : tref T)
  | X3 (this : loc) | Y3 (this : loc) | Z3 (this : loc)
  | SetX3 (this : loc) (v : tref T)
  | SetY3 (this : loc) (v : tref T)
  | SetZ3 (this : loc) (v : tref T)
  | Normalize3 (this : loc)
  | Mean3 (this : loc)
  | Dot3 (this o : loc)
  | Cross3 (this o : loc)
  | Magnitude23 (this : loc)
  | Magnitude3 (this : loc)
  | Sum3 (this : loc)
  | Prod3 (this : loc)
  | Min3 (this : loc)
  | Max3 (this : loc)
  | MinusAssign3 (this rhs : loc)
  | PlusAssign3 (this rhs : loc)
  | TimesAssign3 (this rhs : loc)
  | DivideAssign3 (this rhs : loc)
  | TimesAssignScalar3 (this : loc) (v : tref T)
  | DivideAssignScalar3 (this : loc) (v : tref T)
  | Subscript3 (this : loc) (n : nat)
  | At3 (this : loc) (n : nat)
  | NormalizeFree3 (a : loc)
  | DotFree3 (a b : loc)
  | Plus3 (a b : loc) | Minus3 (a b : loc) | Times3 (a b : loc) | Divide3 (a b : loc)
  | TimesScalar3 (a : loc) (s : tref T)
  | DivideScalar3 (a : loc) (s : tref T)
  | Eq3 (a b : loc) | Ne3 (a b : loc)
  | Lt3 (a b : loc) | Gt3 (a b : loc) | Le3 (a b : loc) | Ge3 (a b : loc).

Inductive vec_call (T : Type) :=
  | SwapN (this other : loc)
  | FillN (this : loc) (u : tref T)
  | NormalizeN (this : loc)
  | MeanN (this : loc)
  | DotN (this o : loc)
  | CrossN (this o : loc)
  | Magnitude2N (this : loc)
  | MagnitudeN (this : loc)
  | SumN (this : loc)
  | ProdN (this : loc)
  | MinN (this : loc)
  | MaxN (this : loc)
  | PlusAssignN (this rhs : loc)
  | MinusAssignN (this rhs : loc)
  | TimesAssignN (this rhs : loc)
  | DivideAssignN (this rhs : loc)
  | TimesAssignScalarN (this : loc) (v : tref T)
  | DivideAssignScalarN (this : loc) (v : tref T)
  | SubscriptN (this : loc) (n : nat)
  | NormalizeFreeN (a : loc)
  | DotFreeN (a b : loc)
  | PlusN (a b : loc) | MinusN (a b : loc) | TimesN (a b : loc) | DivideN (a b : loc)
  | TimesScalarN (a : loc) (s : tref T)
  | DivideScalarN (a : loc) (s : tref T)
  | EqN (a b : loc) | NeN (a b : loc)
  | LtN (a b : loc) | GtN (a b : loc) | LeN (a b : loc) | GeN (a b : loc).

(** A call run for its effect and its way of ending. *)
Definition discard {T A} (m : M T A) : M T () := _ ← m; ret ().

Definition vec3_run `{Elem T} (c : vec3_call T) : M T () :=
  match c with
  | Construct3 _ x y z => discard (vec3.construct x y z)
  | Swap3 _ this other => vec3.swap this other
  | Fill3 _ this u => vec3.fill this u
  | X3 _ this => discard (vec3.x this)
  | Y3 _ this => discard (vec3.y this)
  | Z3 _ this => discard (vec3.z this)
  | SetX3 _ this v => vec3.set_x this v
  | SetY3 _ this v => vec3.set_y this v
  | SetZ3 _ this v => vec3.set_z this v
  | Normalize3 _ this => discard (vec3.normalize this)
  | Mean3 _ this => discard (vec3.mean this)
  | Dot3 _ this o => discard (vec3.dot this o)
  | Cross3 _ this o => discard (vec3.cross this o)
  | Magnitude23 _ this => discard (vec3.magnitude2 this)
  | Magnitude3 _ this => discard (vec3.magnitude this)
  | Sum3 _ this => discard (vec3.sum this)
  | Prod3 _ this => discard (vec3.prod this)
  | Min3 _ this => discard (vec3.min this)
  | Max3 _ this => discard (vec3.max this)
  | MinusAssign3 _ this rhs => discard (vec3.minus_assign this rhs)
  | PlusAssign3 _ this rhs => discard (vec3.plus_assign this rhs)
  | TimesAssign3 _ this rhs => discard (vec3.times_assign this rhs)
  | DivideAssign3 _ this rhs => discard (vec3.divide_assign this rhs)
  | TimesAssignScalar3 _ this v => discard (vec3.times_assign_scalar this v)
  | DivideAssignScalar3 _ this v => discard (vec3.divide_assign_scalar this v)
  | Subscript3 _ this n => discard (vec3.subscript this n)
  | At3 _ this n => discard (vec3.at_ this n)
  | NormalizeFree3 _ a => discard (vec3.normalize_free a)
  | DotFree3 _ a b => discard (vec3.dot_free a b)
  | Plus3 _ a b => discard (vec3.operator_plus a b)
  | Minus3 _ a b => discard (vec3.operator_minus a b)
  | Times3 _ a b => discard (vec3.operator_times a b)
  | Divide3 _ a b => discard (vec3.operator_divide a b)
  | TimesScalar3 _ a s => discard (vec3.operator_times_scalar a s)
  | DivideScalar3 _ a s => discard (vec3.operator_divide_scalar a s)
  | Eq3 _ a b => discard (vec3.operator_eq a b)
  | Ne3 _ a b => discard (vec3.operator_ne a b)
  | Lt3 _ a b => discard (vec3.operator_lt a b)
  | Gt3 _ a b => discard (vec3.operator_gt a b)
  | Le3 _ a b => discard (vec3.operator_le a b)
  | Ge3 _ a b => discard (vec3.operator_ge a b)
  end.

Definition vec_run `{Elem T} (N : nat) (c : vec_call T) : M T () :=
  match c with
  | SwapN _ this other => vec.swap this other
  | FillN _ this u => vec.fill N this u
  | NormalizeN _ this => discard (vec.normalize N this)
  | MeanN _ this => discard (vec.mean N this)
  | DotN _ this o => discard (vec.dot this o)
  | CrossN _ this o => discard (vec.cross this o)
  | Magnitude2N _ this => discard (vec.magnitude2 this)
  | MagnitudeN _ this => discard (vec.magnitude this)
  | SumN _ this => discard (vec.sum this)
  | ProdN _ this => discard (vec.prod this)
  | MinN _ this => discard (vec.min this)
  | MaxN _ this => discard (vec.max this)
  | PlusAssignN _ this rhs => discard (vec.plus_assign N this rhs)
  | MinusAssignN _ this rhs => discard (vec.minus_assign N this rhs)
  | TimesAssignN _ this rhs => discard (vec.times_assign N this rhs)
  | DivideAssignN _ this rhs => discard (vec.divide_assign N this rhs)
  | TimesAssignScalarN _ this v => discard (vec.times_assign_scalar N this v)
  | DivideAssignScalarN _ this v => discard (vec.divide_assign_scalar N this v)
  | SubscriptN _ this n => discard (vec.subscript N this n)
  | NormalizeFreeN _ a => discard (vec.normalize_free N a)
  | DotFreeN _ a b => discard (vec.dot_free a b)
  | PlusN _ a b => discard (vec.operator_plus N a b)
  | MinusN _ a b => discard (vec.operator_minus N a b)
  | TimesN _ a b => discard (vec.operator_times N a b)
  | DivideN _ a b => discard (vec.operator_divide N a b)
  | TimesScalarN _ a s => discard (vec.operator_times_scalar N a s)
  | DivideScalarN _ a s => discard (vec.operator_divide_scalar N a s)
  | EqN _ a b => discard (vec.operator_eq a b)
  | NeN _ a b => discard (vec.operator_ne a b)
  | LtN _ a b => discard (vec.operator_lt a b)
  | GtN _ a b => discard (vec.operator_gt a b)
  | LeN _ a b => discard (vec.operator_le a b)
  | GeN _ a b => discard (vec.operator_ge a b)
  end.

(** ** What the specification says, in its own words *)

Section specification.
Context `{Elem T}.

(** "the inner product, sum over i of p[i] * other.p[i], folded
    left-to-right seeded at the additive identity". *)
Definition inner_product (p q : list T) : T :=
  foldl tadd tzero (zip_with tmul p q).

(** "seed with the first element and fold the remaining N−1". *)
Definition product_from_first (p : list T) : option T :=
  match p with
  | [] => None
  | x :: rest => Some (foldl tmul x rest)
  end.

(** "every corresponding element pair is equal". *)
Definition pairwise_equal (p q : list T) : Prop :=
  ∀ i a b, p !! i = Some a → q !! i = Some b → teq a b = true.

(** "the underlying element sequences compare lexicographically less
    (element 0 most significant)": the first index at which the two
    sequences are ordered at all has the left element below the right one. *)
Definition lexicographically_less (p q : list T) : Prop :=
  ∃ i a b, p !! i = Some a ∧ q !! i = Some b ∧ tlt a b = true ∧
    ∀ j c d, j < i → p !! j = Some c → q !! j = Some d →
      tlt c d = false ∧ tlt d c = false.

(** A [const T&] argument that is no element of the vector at [l]. *)
Definition outside (v : tref T) (l : loc) : Prop :=
  match v with Val _ => True | Elt l' _ => l' ≠ l end.

(** A recoverable error: an exception the caller can catch. *)
Definition recoverable_error {A} (o : outcome T A) : Prop :=
  match o with Throw _ _ => True | _ => False end.

(** A computation that never ends with a recoverable error. *)
Definition nothrow {A} (m : M T A) : Prop :=
  ∀ h, ¬ recoverable_error (m h).

(** The store a call leaves behind, when it leaves one. *)
Definition final_store {A} (o : outcome T A) : option (gmap loc (list T)) :=
  match o with
  | Ok _ h | Throw _ h => Some h
  | Undefined | IllFormed => None
  end.

End specification.

(** ** Frame conditions *)

Section frames.
Context {T : Type}.

(** A store of [n]-element arrays: every live object is a
    [std::array<T, n>]. *)
Definition well_shaped (n : nat) (h : gmap loc (list T)) : Prop :=
  ∀ l p, h !! l = Some p → length p = n.

(** A computation that, when it returns, has created and destroyed no
    object, has changed no object outside [W], and has left a store of
    [n]-element arrays a store of [n]-element arrays. *)
Definition keeps (W : loc → Prop) {A} (m : M T A) : Prop :=
  ∀ h a h', m h = Ok a h' →
    dom h' = dom h ∧
    (∀ l, ¬ W l → h' !! l = h !! l) ∧
    (∀ n, well_shaped n h → well_shaped n h').

End frames.

(** The objects a call may write, read off the signatures: the receiver
    of a member function that is not [const], both vectors of [swap], and
    nothing for [const] members and for free functions, whose vector
    parameters are by value or [const&].  The constructor creates an
    object and has no entry. *)
Definition vec3_writes {T} (c : vec3_call T) : option (list loc) :=
  match c with
  | Construct3 _ _ _ _ => None
  | Swap3 _ this other => Some [this; other]
  | Fill3 _ this _ | SetX3 _ this _ | SetY3 _ this _ | SetZ3 _ this _
  | Normalize3 _ this
  | MinusAssign3 _ this _ | PlusAssign3 _ this _
  | TimesAssign3 _ this _ | DivideAssign3 _ this _
  | TimesAssignScalar3 _ this _ | DivideAssignScalar3 _ this _ => Some [this]
  | _ => Some []
  end.

Definition vec_writes {T} (c : vec_call T) : list loc :=
  match c with
  | SwapN _ this other => [this; other]
  | FillN _ this _ | NormalizeN _ this
  | PlusAssignN _ this _ | MinusAssignN _ this _
  | TimesAssignN _ this _ | DivideAssignN _ this _
  | TimesAssignScalarN _ this _ | DivideAssignScalarN _ this _ => [this]
  | _ => []
  end.

(** A computation that is no ill-formed call, in any store. *)
Definition compiles {T A} (m : M T A) : Prop := ∀ h, m h ≠ IllFormed.

(** The calls that name what does not exist or is not accessible:
    [p.first()], [p.second()] or [p.last()], directly or through a member
    they call; the private [p] from a free function; a vector made of one
    [T] or, for [vec], of a braced list. *)
Definition vec3_ill_formed_call {T} (c : vec3_call T) : bool :=
  match c with
  | Min3 _ _ | Max3 _ _ | DotFree3 _ _ _
  | Eq3 _ _ _ | Ne3 _ _ _ | Lt3 _ _ _ | Gt3 _ _ _ | Le3 _ _ _ | Ge3 _ _ _ => true
  | _ => false
  end.

Definition vec_ill_formed_call {T} (c : vec_call T) : bool :=
  match c with
  | NormalizeN _ _ | MeanN _ _ | DotN _ _ _ | CrossN _ _ _
  | Magnitude2N _ _ | MagnitudeN _ _ | SumN _ _ | ProdN _ _
  | MinN _ _ | MaxN _ _ | NormalizeFreeN _ _ | DotFreeN _ _ _
  | EqN _ _ _ | NeN _ _ _ | LtN _ _ _ | GtN _ _ _ | LeN _ _ _ | GeN _ _ _ => true
  | _ => false
  end.

(** ** Stores used in the examples *)

(** [vec3<int> a(1, 2, 3), b(4, 5, 6);] at addresses 0 and 1. *)
Definition int_store : gmap loc (list Z) :=
  {[ 0 := [1; 2; 3]%Z; 1 := [4; 5; 6]%Z ]}.

(** [vec3<int> a(-3, 0, 0);] at address 0. *)
Definition negative_store : gmap loc (list Z) := {[ 0 := [-3; 0; 0]%Z ]}.

(** [vec3<double> a(1, 0, 0), b(0, 1, 0), c(0, 0, 1);] at addresses 0, 1, 2. *)
Definition double_store : gmap loc (list float) :=
  {[ 0 := [1; 0; 0]%float; 1 := [0; 1; 0]%float; 2 := [0; 0; 1]%float ]}.

(** [vec3<double> a(0, 0, 0);] at address 0. *)
Definition zero_store : gmap loc (list float) := {[ 0 := [0; 0; 0]%float ]}.

(** * Verification *)

(** ** Running the primitives *)

Section running.
Context {T : Type}.
Implicit Types (h : gmap loc (list T)) (p q : list T) (l : loc).

Lemma bind_ok {A B} (m : M T A) (k : A → M T B) h a h' :
  m h = Ok a h' → (m ≫= k) h = k a h'.
Proof. intros E. unfold mbind, M_bind, bind. by rewrite E. Qed.

Lemma read_ok h l p : h !! l = Some p → read l h = Ok p h.
Proof. intros E. unfold read. by rewrite E. Qed.

Lemma write_ok h l p q : h !! l = Some p → write l q h = Ok () (<[l:=q]> h).
Proof. intros E. unfold write. by rewrite E. Qed.

Lemma load_ok h l p i t : h !! l = Some p → p !! i = Some t → load l i h = Ok t h.
Proof.
  intros E Ei. unfold load. rewrite (bind_ok _ _ _ _ _ (read_ok _ _ _ E)).
  by rewrite Ei.
Qed.

Lemma store_ok h l p i t :
  h !! l = Some p → i < length p → store l i t h = Ok () (<[l:=<[i:=t]> p]> h).
Proof.
  intros E Hi. unfold store. rewrite (bind_ok _ _ _ _ _ (read_ok _ _ _ E)).
  rewrite decide_True by done. by eapply write_ok.
Qed.

Lemma update_ok h this p i op (e : M T T) a b :
  e h = Ok b h → h !! this = Some p → p !! i = Some a →
  update this i op e h = Ok () (<[this:=<[i:=op a b]> p]> h).
Proof.
  intros Ee E Ei. unfold update. rewrite (bind_ok _ _ _ _ _ Ee).
  rewrite (bind_ok _ _ _ _ _ (load_ok _ _ _ _ _ E Ei)).
  eapply store_ok; [done|]. by eapply lookup_lt_Some.
Qed.

Lemma fresh_dead h : h !! fresh (dom h) = None.
Proof. apply not_elem_of_dom, is_fresh. Qed.

Lemma live_not_fresh h l p : h !! l = Some p → l ≠ fresh (dom h).
Proof. intros E ->. by rewrite fresh_dead in E. Qed.

Lemma alloc_destroy h p : delete (fresh (dom h)) (<[fresh (dom h):=p]> h) = h.
Proof. rewrite delete_insert_eq. apply delete_id, fresh_dead. Qed.

Lemma by_value_ok {A} h a p (body : loc → M T A) r h' :
  h !! a = Some p →
  body (fresh (dom h)) (<[fresh (dom h):=p]> h) = Ok r h' →
  by_value a body h = Ok r (delete (fresh (dom h)) h').
Proof.
  intros E Eb. unfold by_value. rewrite (bind_ok _ _ _ _ _ (read_ok _ _ _ E)).
  unfold mbind, M_bind, bind, alloc. simpl. by rewrite Eb.
Qed.

End running.

(** ** [vec3]: the compound assignments *)

Ltac find_object :=
  first
    [ eassumption
    | rewrite lookup_insert_eq; reflexivity
    | rewrite lookup_insert_ne by congruence; find_object ].

Ltac run_step :=
  first
    [ eapply update_ok; [ run_step | find_object | reflexivity ]
    | eapply load_ok; [ find_object | reflexivity ]
    | eapply store_ok; [ find_object | simpl; lia ]
    | eapply read_ok; find_object
    | reflexivity ].

Ltac run := repeat (erewrite bind_ok by run_step); simpl.

Section vec3_compound.
Context `{Elem T}.
Implicit Types (h : gmap loc (list T)) (this rhs : loc).

Lemma vec3_elementwise_assign h this rhs a0 a1 a2 b0 b1 b2 (op : T → T → T) :
  h !! this = Some [a0; a1; a2] → h !! rhs = Some [b0; b1; b2] →
  (update this 0 op (load rhs 0);;
   update this 1 op (load rhs 1);;
   update this 2 op (load rhs 2);;
   ret this) h
  = Ok this (<[this:=[op a0 b0; op a1 b1; op a2 b2]]> h).
Proof.
  intros Ea Eb. destruct (decide (this = rhs)) as [->|Hne].
  - assert ([a0; a1; a2] = [b0; b1; b2]) as [= -> -> ->] by congruence.
    run. unfold ret. by rewrite !insert_insert_eq.
  - run. unfold ret. by rewrite !insert_insert_eq.
Qed.

End vec3_compound.

Section vec3_scalar.
Context `{Elem T}.
Implicit Types (h : gmap loc (list T)) (this : loc) (v : tref T).

Lemma load_inv h l i t h' :
  load l i h = Ok t h' → h' = h ∧ ∃ p, h !! l = Some p ∧ p !! i = Some t.
Proof.
  unfold load, read, mbind, M_bind, bind. destruct (h !! l) as [p|]; [|done].
  destruct (p !! i) as [t'|] eqn:Ei; simpl; [|done].
  intros [= -> ->]. eauto.
Qed.

Lemma deref_frame h v s this p :
  deref v h = Ok s h → outside v this →
  deref v (<[this:=p]> h) = Ok s (<[this:=p]> h).
Proof.
  destruct v as [t|l i]; simpl; [by intros [= ->]|].
  intros (_ & q & El & Ei)%load_inv Hne.
  eapply load_ok; [|done]. by rewrite lookup_insert_ne.
Qed.

Lemma deref_live h v s : deref v h = Ok s h → outside v (fresh (dom h)).
Proof.
  destruct v as [t|l i]; simpl; [done|].
  intros (_ & q & El & _)%load_inv. by eapply live_not_fresh.
Qed.

Lemma vec3_scalar_assign h this v a0 a1 a2 s (op : T → T → T) :
  h !! this = Some [a0; a1; a2] → deref v h = Ok s h → outside v this →
  (update this 0 op (deref v);;
   update this 1 op (deref v);;
   update this 2 op (deref v);;
   ret this) h
  = Ok this (<[this:=[op a0 s; op a1 s; op a2 s]]> h).
Proof.
  intros Ea Ev Hv.
  erewrite bind_ok by (eapply update_ok; [done..|reflexivity]).
  erewrite bind_ok
    by (eapply update_ok; [by apply deref_frame|find_object|reflexivity]).
  rewrite insert_insert_eq.
  erewrite bind_ok
    by (eapply update_ok; [by apply deref_frame|find_object|reflexivity]).
  rewrite insert_insert_eq. done.
Qed.

(** A scalar that is the receiver's own first element changes under the
    assignment: the later elements see the new value. *)
Lemma vec3_scalar_assign_aliased h this a0 a1 a2 (op : T → T → T) :
  h !! this = Some [a0; a1; a2] →
  (update this 0 op (deref (Elt this 0));;
   update this 1 op (deref (Elt this 0));;
   update this 2 op (deref (Elt this 0));;
   ret this) h
  = Ok this (<[this:=[op a0 a0; op a1 (op a0 a0); op a2 (op a0 a0)]]> h).
Proof.
  intros Ea. simpl. run. unfold ret. by rewrite !insert_insert_eq.
Qed.

(** The value-returning mirror of a compound assignment. *)
Lemma free_operator_ok h a p (compound : loc → M T loc) res :
  h !! a = Some p →
  compound (fresh (dom h)) (<[fresh (dom h):=p]> h)
    = Ok (fresh (dom h)) (<[fresh (dom h):=res]> (<[fresh (dom h):=p]> h)) →
  by_value a (λ lhs, r ← compound lhs; return_vector (of_vector r)) h = Ok res h.
Proof.
  intros Ea Ec. erewrite by_value_ok; [|done|].
  2:{ erewrite bind_ok by exact Ec. simpl. eapply read_ok, lookup_insert_eq. }
  by rewrite insert_insert_eq, alloc_destroy.
Qed.

End vec3_scalar.

(** ** [vec]: the loops of the compound assignments *)

Section vec_loops.
Context `{Elem T}.
Implicit Types (h : gmap loc (list T)) (this rhs : loc) (p q bs : list T).

(** The loop invariant: after the elements below [i], the array is the old
    one with its first [i] elements updated.  [bs] lists what the right
    operand [e] yields at the iterations still to run; [e] may read the
    receiver itself, as long as it reads no element already written. *)
Lemma for_range_update h this (op : T → T → T) (e : nat → M T T) bs : ∀ i p,
  length p = i + length bs →
  (∀ k b p', bs !! k = Some b → length p' = length p →
     (∀ j, i + k ≤ j → p' !! j = p !! j) →
     e (i + k) (<[this:=p']> h) = Ok b (<[this:=p']> h)) →
  for_range i (length bs) (λ j, update this j op (e j)) (<[this:=p]> h)
  = Ok () (<[this:=take i p ++ zip_with op (drop i p) bs]> h).
Proof.
  induction bs as [|b bs IH]; intros i p Hlen He; simpl in *.
  - rewrite zip_with_nil_r, app_nil_r, firstn_all2 by lia. done.
  - destruct (lookup_lt_is_Some_2 p i) as [a Ea]; [lia|].
    assert (e i (<[this:=p]> h) = Ok b (<[this:=p]> h)) as Ee.
    { rewrite <- (Nat.add_0_r i) at 1. by apply He. }
    erewrite bind_ok by (eapply update_ok; [exact Ee|apply lookup_insert_eq|exact Ea]).
    rewrite insert_insert_eq, IH.
    + f_equal. f_equal.
      rewrite drop_insert_lt by lia.
      rewrite (take_S_r _ i (op a b)) by (apply list_lookup_insert_eq; lia).
      rewrite take_insert_ge by lia.
      rewrite (drop_S p a i Ea). by rewrite <- app_assoc.
    + rewrite length_insert. lia.
    + intros k b' p' Ek Hl Hj. replace (S i + k) with (i + S k) by lia.
      apply He; [done|by rewrite Hl, length_insert|].
      intros j Hij. rewrite Hj by lia. apply list_lookup_insert_ne. lia.
Qed.

End vec_loops.

Section vec_compound.
Context `{Elem T}.
Implicit Types (h : gmap loc (list T)) (this rhs : loc) (p q : list T).

Lemma vec_elementwise_assign N h this rhs p q (op : T → T → T) :
  h !! this = Some p → h !! rhs = Some q → length p = N → length q = N →
  (for_range 0 N (λ i, update this i op (load rhs i));; ret this) h
  = Ok this (<[this:=zip_with op p q]> h).
Proof.
  intros Ep Eq Hp Hq.
  rewrite <- (insert_id h this p Ep) at 1. rewrite <- Hq.
  erewrite bind_ok; [reflexivity|]. simpl.
  rewrite (for_range_update h this op (load rhs) q 0 p); [done|lia|].
  intros k b p' Ek Hl Hj. simpl in *.
  destruct (decide (this = rhs)) as [->|Hne].
  - eapply load_ok; [apply lookup_insert_eq|].
    rewrite Hj by lia. congruence.
  - eapply load_ok; [|done]. by rewrite lookup_insert_ne.
Qed.

Lemma vec_scalar_assign N h this v p s (op : T → T → T) :
  h !! this = Some p → length p = N → deref v h = Ok s h → outside v this →
  (for_range 0 N (λ i, update this i op (deref v));; ret this) h
  = Ok this (<[this:=(λ a, op a s) <$> p]> h).
Proof.
  intros Ep Hp Ev Hv.
  rewrite <- (insert_id h this p Ep) at 1.
  rewrite <- Hp, <- (length_replicate (length p) s).
  erewrite bind_ok; [reflexivity|]. simpl.
  rewrite (for_range_update h this op (λ _, deref v) (replicate (length p) s) 0 p).
  - simpl. by rewrite zip_with_replicate_r_eq.
  - by rewrite length_replicate.
  - intros k b p' [-> _]%lookup_replicate _ _. by apply deref_frame.
Qed.

End vec_compound.

(** ** The free operators *)

Section free_operators.
Context `{Elem T}.
Implicit Types (h : gmap loc (list T)) (p q : list T).

Lemma vec3_operator h (a b : loc) a0 a1 a2 b0 b1 b2 (op : T → T → T) :
  h !! a = Some [a0; a1; a2] → h !! b = Some [b0; b1; b2] →
  by_value a (λ lhs,
    r ← (update lhs 0 op (load b 0);; update lhs 1 op (load b 1);;
         update lhs 2 op (load b 2);; ret lhs);
    return_vector (of_vector r)) h
  = Ok [op a0 b0; op a1 b1; op a2 b2] h.
Proof.
  intros Ea Eb. eapply (free_operator_ok h a _ (λ lhs, _)); [done|].
  rewrite (vec3_elementwise_assign _ _ b a0 a1 a2 b0 b1 b2);
    [done|apply lookup_insert_eq|].
  rewrite lookup_insert_ne; [done|]. symmetry. by eapply live_not_fresh.
Qed.

Lemma vec3_operator_scalar h (a : loc) v a0 a1 a2 s (op : T → T → T) :
  h !! a = Some [a0; a1; a2] → deref v h = Ok s h →
  by_value a (λ lhs,
    r ← (update lhs 0 op (deref v);; update lhs 1 op (deref v);;
         update lhs 2 op (deref v);; ret lhs);
    return_vector (of_vector r)) h
  = Ok [op a0 s; op a1 s; op a2 s] h.
Proof.
  intros Ea Ev. eapply (free_operator_ok h a _ (λ lhs, _)); [done|].
  rewrite (vec3_scalar_assign _ _ v a0 a1 a2 s); [done|apply lookup_insert_eq|..].
  - apply deref_frame; [done|]. by eapply deref_live.
  - by eapply deref_live.
Qed.

Lemma vec_operator N h (a b : loc) p q (op : T → T → T) :
  h !! a = Some p → h !! b = Some q → length p = N → length q = N →
  by_value a (λ lhs,
    r ← (for_range 0 N (λ i, update lhs i op (load b i));; ret lhs);
    return_vector (of_vector r)) h
  = Ok (zip_with op p q) h.
Proof.
  intros Ea Eb Hp Hq. eapply (free_operator_ok h a _ (λ lhs, _)); [done|].
  rewrite (vec_elementwise_assign N _ _ b p q); [done|apply lookup_insert_eq| |done..].
  rewrite lookup_insert_ne; [done|]. symmetry. by eapply live_not_fresh.
Qed.

Lemma vec_operator_scalar N h (a : loc) v p s (op : T → T → T) :
  h !! a = Some p → length p = N → deref v h = Ok s h →
  by_value a (λ lhs,
    r ← (for_range 0 N (λ i, update lhs i op (deref v));; ret lhs);
    return_vector (of_vector r)) h
  = Ok ((λ x, op x s) <$> p) h.
Proof.
  intros Ea Hp Ev. eapply (free_operator_ok h a _ (λ lhs, _)); [done|].
  rewrite (vec_scalar_assign N _ _ v p s); [done|apply lookup_insert_eq|done|..].
  - apply deref_frame; [done|]. by eapply deref_live.
  - by eapply deref_live.
Qed.

(** C7, as the headers have it.  On two vectors each free operator [+],
    [-], [*], [/] of [vec3] and of [vec], and on a vector and a scalar each
    of the two free operators declared for them, [*] and [/], returns a new
    vector whose element [i] is [a[i] op b[i]], respectively [a[i] op s],
    and leaves the store as it found it: both operands, and every other
    object, keep their elements.  The operands may be one object, and the
    scalar may be an element of either.  There is no [+] or [-] of a vector
    and a scalar. *)
Theorem free_operators_value_semantics :
  (∀ o h (a b : loc) a0 a1 a2 b0 b1 b2,
     h !! a = Some [a0; a1; a2] → h !! b = Some [b0; b1; b2] →
     vec3_binary o a b h
     = Ok [arith_op o a0 b0; arith_op o a1 b1; arith_op o a2 b2] h) ∧
  (∀ o h (a : loc) v a0 a1 a2 s,
     h !! a = Some [a0; a1; a2] → deref v h = Ok s h →
     if takes_scalar o
     then vec3_scalar o a v h
          = Ok [arith_op o a0 s; arith_op o a1 s; arith_op o a2 s] h
     else vec3_scalar o a v h = IllFormed) ∧
  (∀ o N h (a b : loc) p q,
     h !! a = Some p → h !! b = Some q → length p = N → length q = N →
     vec_binary N o a b h = Ok (zip_with (arith_op o) p q) h) ∧
  (∀ o N h (a : loc) v p s,
     h !! a = Some p → length p = N → deref v h = Ok s h →
     if takes_scalar o
     then vec_scalar N o a v h = Ok ((λ x, arith_op o x s) <$> p) h
     else vec_scalar N o a v h = IllFormed).
Proof.
  split; [|split; [|split]].
  - intros [] *; by apply vec3_operator.
  - intros [] * Ea Ev; simpl; first [by eapply vec3_operator_scalar|done].
  - intros [] *; by apply vec_operator.
  - intros [] * Ea Hp Ev; simpl; first [by eapply vec_operator_scalar|done].
Qed.

End free_operators.

(** ** [vec3]: the named accessors *)

Section vec3_accessors.
Context `{Elem T}.
Implicit Types (h : gmap loc (list T)) (this : loc) (v : tref T).

Lemma vec3_set_slot h this v w a0 a1 a2 i :
  h !! this = Some [a0; a1; a2] → deref v h = Ok w h → i < 3 →
  (t ← deref v; store this i t) h = Ok () (<[this:=<[i:=w]> [a0; a1; a2]]> h).
Proof.
  intros Ea Ev Hi. erewrite bind_ok by exact Ev.
  eapply store_ok; [done|simpl; lia].
Qed.

Lemma vec3_get_slot h this p i t :
  h !! this = Some p → p !! i = Some t → i < 3 →
  (r ← vec3.p_subscript this i; deref r) h = Ok t h.
Proof.
  intros Ep Ei Hi. unfold vec3.p_subscript. rewrite decide_True by done.
  erewrite bind_ok by reflexivity. simpl. by eapply load_ok.
Qed.

(** C9.  Each setter [x(w)], [y(w)], [z(w)] of a [vec3] writes [w] into its
    own slot (0, 1, 2) and nothing else; a read through the accessor of the
    same name then yields [w], and reads through the other two accessors
    yield the values held before. *)
Theorem named_setters_write_their_own_slot h this v w a0 a1 a2 :
  h !! this = Some [a0; a1; a2] → deref v h = Ok w h →
  (vec3.set_x this v h = Ok () (<[this:=[w; a1; a2]]> h) ∧
   (r ← vec3.x this; deref r) (<[this:=[w; a1; a2]]> h) = Ok w (<[this:=[w; a1; a2]]> h) ∧
   (r ← vec3.y this; deref r) (<[this:=[w; a1; a2]]> h) = Ok a1 (<[this:=[w; a1; a2]]> h) ∧
   (r ← vec3.z this; deref r) (<[this:=[w; a1; a2]]> h) = Ok a2 (<[this:=[w; a1; a2]]> h)) ∧
  (vec3.set_y this v h = Ok () (<[this:=[a0; w; a2]]> h) ∧
   (r ← vec3.x this; deref r) (<[this:=[a0; w; a2]]> h) = Ok a0 (<[this:=[a0; w; a2]]> h) ∧
   (r ← vec3.y this; deref r) (<[this:=[a0; w; a2]]> h) = Ok w (<[this:=[a0; w; a2]]> h) ∧
   (r ← vec3.z this; deref r) (<[this:=[a0; w; a2]]> h) = Ok a2 (<[this:=[a0; w; a2]]> h)) ∧
  (vec3.set_z this v h = Ok () (<[this:=[a0; a1; w]]> h) ∧
   (r ← vec3.x this; deref r) (<[this:=[a0; a1; w]]> h) = Ok a0 (<[this:=[a0; a1; w]]> h) ∧
   (r ← vec3.y this; deref r) (<[this:=[a0; a1; w]]> h) = Ok a1 (<[this:=[a0; a1; w]]> h) ∧
   (r ← vec3.z this; deref r) (<[this:=[a0; a1; w]]> h) = Ok w (<[this:=[a0; a1; w]]> h)).
Proof.
  intros Ea Ev.
  repeat split;
    first
      [ by apply (vec3_set_slot h this v w a0 a1 a2); [| |lia]
      | eapply vec3_get_slot; [apply lookup_insert_eq|reflexivity|lia] ].
Qed.

End vec3_accessors.

(** ** Which operations can end with a recoverable error *)

Section nothrow.
Context `{Elem T}.
Implicit Types (h : gmap loc (list T)) (l : loc).

Lemma nothrow_ret {A} (a : A) : nothrow (T:=T) (ret a).
Proof. intros h. exact id. Qed.

Lemma nothrow_bind {A B} (m : M T A) (k : A → M T B) :
  nothrow m → (∀ a, nothrow (k a)) → nothrow (m ≫= k).
Proof.
  intros Hm Hk h. unfold mbind, M_bind, bind.
  specialize (Hm h). destruct (m h); simpl in *; try done. apply Hk.
Qed.

Lemma nothrow_undefined {A} : nothrow (T:=T) (A:=A) undefined.
Proof. intros h. exact id. Qed.

Lemma nothrow_ill_formed {A} : nothrow (T:=T) (A:=A) ill_formed.
Proof. intros h. exact id. Qed.

Lemma nothrow_lift {A} (o : option A) : nothrow (T:=T) (lift o).
Proof. intros h. destruct o; exact id. Qed.

Lemma nothrow_read l : nothrow (T:=T) (read l).
Proof. intros h. unfold read. destruct (h !! l); exact id. Qed.

Lemma nothrow_write l p : nothrow (T:=T) (write l p).
Proof. intros h. unfold write. destruct (h !! l); exact id. Qed.

Lemma nothrow_alloc p : nothrow (T:=T) (alloc p).
Proof. intros h. exact id. Qed.

Lemma nothrow_destroy l : nothrow (T:=T) (destroy l).
Proof. intros h. exact id. Qed.

Lemma nothrow_load l i : nothrow (T:=T) (load l i).
Proof.
  apply nothrow_bind; [apply nothrow_read|]. intros p. apply (nothrow_lift (p !! i)).
Qed.

Lemma nothrow_store l i t : nothrow (T:=T) (store l i t).
Proof.
  apply nothrow_bind; [apply nothrow_read|]. intros p.
  case_decide; [apply nothrow_write|apply nothrow_undefined].
Qed.

Lemma nothrow_deref (v : tref T) : nothrow (deref v).
Proof. destruct v; [apply nothrow_ret|apply nothrow_load]. Qed.

Lemma nothrow_update l i op (e : M T T) : nothrow e → nothrow (update l i op e).
Proof.
  intros He. apply nothrow_bind; [done|]. intros b.
  apply nothrow_bind; [apply nothrow_load|]. intros a. apply nothrow_store.
Qed.

Lemma nothrow_for_range (body : nat → M T ()) n :
  (∀ i, nothrow (body i)) → ∀ i, nothrow (for_range i n body).
Proof.
  intros Hb. induction n as [|n IH]; intros i; simpl; [apply nothrow_ret|].
  apply nothrow_bind; [apply Hb|]. intros _. apply IH.
Qed.

Lemma nothrow_return_vector (o : operand T) : nothrow (return_vector o).
Proof. destruct o; [apply nothrow_read|apply nothrow_ill_formed]. Qed.

Lemma nothrow_by_value {A} l (body : loc → M T A) :
  (∀ v, nothrow (body v)) → nothrow (by_value l body).
Proof.
  intros Hb. apply nothrow_bind; [apply nothrow_read|]. intros p.
  apply nothrow_bind; [apply nothrow_alloc|]. intros v.
  apply nothrow_bind; [apply Hb|]. intros r.
  apply nothrow_bind; [apply nothrow_destroy|]. intros _. apply nothrow_ret.
Qed.

Lemma nothrow_discard {A} (m : M T A) : nothrow m → nothrow (discard m).
Proof. intros Hm. apply nothrow_bind; [done|]. intros _. apply nothrow_ret. Qed.

End nothrow.

Create HintDb nothrow discriminated.
#[export] Hint Resolve nothrow_ret nothrow_undefined
  nothrow_ill_formed nothrow_lift nothrow_read nothrow_write nothrow_alloc
  nothrow_destroy nothrow_load nothrow_store nothrow_deref nothrow_update
  nothrow_return_vector nothrow_discard : nothrow.

(** Decompose a computation into its primitives. *)
Ltac nothrow_steps :=
  repeat first
    [ progress intros
    | solve [auto with nothrow]
    | apply nothrow_by_value
    | apply nothrow_for_range
    | apply nothrow_discard
    | apply nothrow_update
    | apply nothrow_bind
    | case_decide ].

Section checked_access.
Context `{Elem T}.
Implicit Types (h : gmap loc (list T)) (this : loc) (n : nat).

Lemma at_in_range h this n :
  n < 3 → vec3.at_ this n h = Ok (Elt this n) h.
Proof.
  intros Hn. unfold vec3.at_, vec3.p_subscript.
  rewrite (decide_False (P:=3 ≤ n)) by lia. erewrite bind_ok by reflexivity.
  by rewrite decide_True by lia.
Qed.

Lemma subscript_in_range h this n :
  n < 3 → vec3.subscript this n h = Ok (Elt this n) h.
Proof.
  intros Hn. unfold vec3.subscript, vec3.p_subscript. by rewrite decide_True by lia.
Qed.

Lemma at_out_of_range h this n :
  3 ≤ n → vec3.at_ this n h = Throw (out_of_range "v::vec3::at") h.
Proof. intros Hn. unfold vec3.at_. by rewrite decide_True by lia. Qed.

Lemma At3_or_not (c : vec3_call T) :
  (∃ this n, c = At3 T this n) ∨ (∀ this n, c ≠ At3 T this n).
Proof. destruct c; first [left; by eauto|right; by intros]. Qed.

Lemma vec3_nothrow_but_at (c : vec3_call T) :
  (∀ this n, c ≠ At3 T this n) → nothrow (vec3_run c).
Proof.
  intros Hc. destruct c; simpl;
    try solve [exfalso; eapply Hc; reflexivity];
    unfold vec3.construct, vec3.swap, vec3.fill, vec3.x, vec3.y, vec3.z,
      vec3.set_x, vec3.set_y, vec3.set_z, vec3.normalize, vec3.mean, vec3.dot,
      vec3.cross, vec3.magnitude, vec3.sum, vec3.prod, vec3.min,
      vec3.max, vec3.minus_assign, vec3.plus_assign, vec3.times_assign,
      vec3.divide_assign, vec3.subscript,
      vec3.normalize_free, vec3.dot_free, vec3.operator_plus, vec3.operator_minus,
      vec3.operator_times, vec3.operator_divide, vec3.operator_times_scalar,
      vec3.operator_divide_scalar, vec3.operator_ne,
      vec3.operator_le, vec3.operator_ge, vec3.operator_gt, vec3.operator_lt,
      vec3.operator_eq, vec3.normalize, vec3.magnitude, vec3.dot,
      vec3.times_assign_scalar, vec3.divide_assign_scalar, vec3.magnitude2,
      vec3.sum, vec3.plus_assign, vec3.minus_assign, vec3.times_assign,
      vec3.divide_assign, vec3.p_subscript, vec3.p_first, vec3.p_last,
      vec3.private_p;
    nothrow_steps.
Qed.

Lemma vec_nothrow N (c : vec_call T) : nothrow (vec_run N c).
Proof.
  destruct c; simpl;
    unfold vec.swap, vec.fill, vec.normalize, vec.mean, vec.dot,
      vec.cross, vec.magnitude, vec.sum, vec.prod, vec.min,
      vec.max, vec.minus_assign, vec.plus_assign, vec.times_assign,
      vec.divide_assign, vec.subscript,
      vec.normalize_free, vec.dot_free, vec.operator_plus, vec.operator_minus,
      vec.operator_times, vec.operator_divide, vec.operator_times_scalar,
      vec.operator_divide_scalar, vec.operator_ne,
      vec.operator_le, vec.operator_ge, vec.operator_gt, vec.operator_lt,
      vec.operator_eq, vec.normalize, vec.magnitude, vec.dot,
      vec.times_assign_scalar, vec.divide_assign_scalar, vec.magnitude2,
      vec.sum, vec.plus_assign, vec.minus_assign, vec.times_assign,
      vec.divide_assign, vec.p_subscript, vec.p_first, vec.p_second,
      vec.p_last, vec.private_p, vec.from_braced_list;
    nothrow_steps.
Qed.

(** C2.  [vec3<T>::at(n)] throws [std::out_of_range("v::vec3::at")] exactly
    when [n >= 3]; for [n < 3] it returns the very element [operator[](n)]
    returns; and no other operation of [vec3] or of [vec] ends with a
    recoverable error. *)
Theorem at_is_the_only_checked_access h this n :
  (vec3.at_ this n h = Throw (out_of_range "v::vec3::at") h ↔ 3 ≤ n) ∧
  (n < 3 →
     vec3.at_ this n h = vec3.subscript this n h ∧
     vec3.subscript this n h = Ok (Elt this n) h) ∧
  (∀ c, recoverable_error (vec3_run c h) →
     ∃ this' n', c = At3 T this' n' ∧ 3 ≤ n' ∧
       vec3.at_ this' n' h = Throw (out_of_range "v::vec3::at") h) ∧
  (∀ N c, ¬ recoverable_error (vec_run N c h)).
Proof.
  split; [|split; [|split]].
  - split; [|apply at_out_of_range].
    intros E. destruct (decide (3 ≤ n)) as [|Hn]; [done|].
    rewrite at_in_range in E by lia. done.
  - intros Hn. by rewrite at_in_range, subscript_in_range.
  - intros c Hr.
    destruct (At3_or_not c) as [(this' & n' & ->)|Hc].
    + simpl in Hr. destruct (decide (3 ≤ n')) as [Hn|Hn].
      * exists this', n'. by rewrite at_out_of_range.
      * unfold discard, mbind, M_bind, bind in Hr.
        rewrite at_in_range in Hr by lia. done.
    + exfalso. by eapply (vec3_nothrow_but_at c).
  - intros N c. apply vec_nothrow.
Qed.

(** C10.  A failing [v.at(n)], [n >= 3], throws with the store exactly as it
    was: the three elements of [v] are those it held before the call. *)
Theorem failing_at_leaves_vector_unmodified h this n a0 a1 a2 :
  h !! this = Some [a0; a1; a2] → 3 ≤ n →
  vec3.at_ this n h = Throw (out_of_range "v::vec3::at") h ∧
  ∃ h', final_store (vec3.at_ this n h) = Some h' ∧
    h' = h ∧ h' !! this = Some [a0; a1; a2].
Proof.
  intros Ea Hn. split; [by apply at_out_of_range|].
  exists h. by rewrite at_out_of_range.
Qed.

End checked_access.

(** ** The algorithms as folds *)

Section folds.
Context `{Elem T}.
Implicit Types (p q r : list T).

Lemma accumulate_foldl r init (op : T → T → T) :
  accumulate r init op = foldl op init r.
Proof. revert init. induction r as [|x r IH]; intros init; simpl; [done|apply IH]. Qed.

Lemma transform_reduce_foldl r1 r2 init :
  length r1 ≤ length r2 →
  transform_reduce r1 r2 init = Some (foldl tadd init (zip_with tmul r1 r2)).
Proof.
  revert r2 init. induction r1 as [|x r1 IH]; intros [|y r2] init Hl; simpl in *;
    [done|done|lia|]. apply IH. lia.
Qed.

End folds.

(** ** [dot], [magnitude2], [magnitude], [normalize] *)

Section normalize.
Context `{Elem T}.
Implicit Types (h : gmap loc (list T)) (this : loc) (p q : list T).

Lemma vec3_magnitude2_ok h this a0 a1 a2 :
  h !! this = Some [a0; a1; a2] →
  vec3.magnitude2 this h
  = Ok (tadd (tadd (tmul a0 a0) (tmul a1 a1)) (tmul a2 a2)) h.
Proof. intros Ea. unfold vec3.magnitude2. by run. Qed.

Lemma vec3_magnitude_ok h this a0 a1 a2 :
  h !! this = Some [a0; a1; a2] →
  vec3.magnitude this h
  = Ok (tsqrt (tadd (tadd (tmul a0 a0) (tmul a1 a1)) (tmul a2 a2))) h.
Proof.
  intros Ea. unfold vec3.magnitude.
  by erewrite bind_ok by by apply vec3_magnitude2_ok.
Qed.

Lemma vec3_dot_ok h this (o : loc) a0 a1 a2 b0 b1 b2 :
  h !! this = Some [a0; a1; a2] → h !! o = Some [b0; b1; b2] →
  vec3.dot this o h
  = Ok (tadd (tadd (tmul a0 b0) (tmul a1 b1)) (tmul a2 b2)) h.
Proof. intros Ea Eb. unfold vec3.dot. by run. Qed.

Lemma vec3_normalize_ok h this a0 a1 a2 m :
  h !! this = Some [a0; a1; a2] → vec3.magnitude this h = Ok m h →
  vec3.normalize this h = Ok this (<[this:=[tdiv a0 m; tdiv a1 m; tdiv a2 m]]> h).
Proof.
  intros Ea Em. unfold vec3.normalize. erewrite bind_ok by exact Em.
  by apply (vec3_scalar_assign h this (Val m) a0 a1 a2 m).
Qed.

(** A parameter by value is copied before the body runs: what the body
    cannot do, the call cannot do. *)
Lemma by_value_ill_formed {A} h (a : loc) p (body : loc → M T A) :
  h !! a = Some p →
  body (fresh (dom h)) (<[fresh (dom h):=p]> h) = IllFormed →
  by_value a body h = IllFormed.
Proof.
  intros Ea Eb. unfold by_value. erewrite bind_ok by by apply read_ok.
  unfold mbind, M_bind, bind, alloc. simpl. by rewrite Eb.
Qed.

(** C5, on the code.  [vec3::normalize()] computes [magnitude()] once,
    divides every element of the receiver in place by that value, and
    returns the receiver itself; nothing tests the magnitude, and when it
    is the zero of [T] every element becomes [element / zero].
    [vec::normalize()] is written the same way and cannot be called: its
    [magnitude()] calls [magnitude2()], which names [p.first()] and
    [p.last()].  The free [normalize] of [vec] fails with it. *)
Theorem normalize_of_vec_is_ill_formed :
  (∀ h this a0 a1 a2,
     h !! this = Some [a0; a1; a2] →
     ∃ m, vec3.magnitude this h = Ok m h ∧
       vec3.normalize this h
       = Ok this (<[this:=[tdiv a0 m; tdiv a1 m; tdiv a2 m]]> h) ∧
       (m = tzero →
        vec3.normalize this h
        = Ok this (<[this:=[tdiv a0 tzero; tdiv a1 tzero; tdiv a2 tzero]]> h))) ∧
  (∀ N h this,
     vec.magnitude2 this h = IllFormed ∧
     vec.magnitude this h = IllFormed ∧
     vec.normalize N this h = IllFormed ∧
     ∀ p, h !! this = Some p → vec.normalize_free N this h = IllFormed).
Proof.
  split.
  - intros h this a0 a1 a2 Ea. eexists. split; [by apply vec3_magnitude_ok|].
    assert (∀ m, vec3.magnitude this h = Ok m h →
      vec3.normalize this h
      = Ok this (<[this:=[tdiv a0 m; tdiv a1 m; tdiv a2 m]]> h)) as Hn
      by (intros; by apply vec3_normalize_ok).
    split; [by apply Hn, vec3_magnitude_ok|].
    intros Hz. rewrite <- Hz. by apply Hn, vec3_magnitude_ok.
  - intros N h this. do 3 (split; [reflexivity|]).
    intros p Ep. by eapply by_value_ill_formed.
Qed.

End normalize.

(** ** [prod] *)

Section prod.
Context `{Elem T}.
Implicit Types (h : gmap loc (list T)) (this : loc) (p : list T).

Lemma vec3_prod_ok h this a0 a1 a2 :
  h !! this = Some [a0; a1; a2] →
  vec3.prod this h = Ok (tmul (tmul a0 a1) a2) h.
Proof. intros Ea. unfold vec3.prod. by run. Qed.

End prod.

(** C4, on the code.  [vec3::prod()] is the left-to-right product of the
    elements after the first, seeded with the first one; no multiplicative
    identity of [T] takes part, and [vec3<int>(1,2,3).prod()] is 6.
    [vec::prod()] is written as that very fold, [std::accumulate] over the
    elements after the first with the first as its seed, and cannot be
    called: it names [p.first()] and [p.last()]. *)
Theorem prod_of_vec_is_ill_formed `{Elem T} :
  (∀ (h : gmap loc (list T)) (this : loc) a0 a1 a2,
     h !! this = Some [a0; a1; a2] →
     ∃ r, product_from_first [a0; a1; a2] = Some r ∧ vec3.prod this h = Ok r h) ∧
  (∀ (h : gmap loc (list Z)) (this : loc),
     h !! this = Some [1; 2; 3]%Z → vec3.prod (H:=int_elem) this h = Ok 6%Z h) ∧
  (∀ x p, product_from_first (x :: p) = Some (accumulate p x tmul)) ∧
  (∀ (h : gmap loc (list T)) (this : loc), vec.prod this h = IllFormed).
Proof.
  split; [|split; [|split]].
  - intros h this a0 a1 a2 Ea. eexists. split; [done|]. by apply vec3_prod_ok.
  - intros h this Ea. by rewrite (vec3_prod_ok (H:=int_elem) h this _ _ _ Ea).
  - intros x p. simpl. by rewrite accumulate_foldl.
  - reflexivity.
Qed.

(** ** [cross] and the free [dot]: what the declared result types do *)

Section results.
Context `{Elem T}.
Implicit Types (h : gmap loc (list T)) (p q : list T).

Lemma temporary_dies h p :
  (t ← alloc p; destroy t;; ret t) h = Ok (fresh (dom h)) h.
Proof.
  unfold mbind, M_bind, bind, alloc, destroy, mret, M_ret, ret. simpl.
  by rewrite alloc_destroy.
Qed.

Lemma vec3_cross_ok h (a b : loc) a0 a1 a2 b0 b1 b2 :
  h !! a = Some [a0; a1; a2] → h !! b = Some [b0; b1; b2] →
  vec3.cross a b h = Ok (fresh (dom h)) h.
Proof. intros Ea Eb. unfold vec3.cross. run. apply temporary_dies. Qed.

Lemma dangling_read h : read (T:=T) (fresh (dom h)) h = Undefined.
Proof. unfold read. by rewrite fresh_dead. Qed.

(** C3.  [a.cross(b)] of [vec3] computes the three components into a
    temporary vector and returns a reference to it; the temporary is dead
    when the call returns.  [a], [b] and the rest of the store are as
    before, the returned reference designates no live object, and reading
    the result, as copying it does, is undefined; comparing it with [==]
    is not even a call that compiles.  In [vec], [cross] has nothing to
    initialise its result with and is ill-formed. *)
Theorem cross_returns_dangling_reference h (a b : loc) a0 a1 a2 b0 b1 b2 :
  h !! a = Some [a0; a1; a2] → h !! b = Some [b0; b1; b2] →
  (vec3.cross a b h
   = (t ← alloc (cross_list a0 a1 a2 b0 b1 b2); destroy t;; ret t) h ∧
   vec3.cross a b h = Ok (fresh (dom h)) h ∧
   h !! fresh (dom h) = None ∧
   (r ← vec3.cross a b; read r) h = Undefined ∧
   (r ← vec3.cross a b; return_vector (of_vector r)) h = Undefined ∧
   ∀ c, (r ← vec3.cross a b; vec3.operator_eq r c) h = IllFormed) ∧
  vec.cross a b h = IllFormed.
Proof.
  intros Ea Eb.
  pose proof (vec3_cross_ok h a b _ _ _ _ _ _ Ea Eb) as E3.
  repeat split; try done; try apply fresh_dead.
  - unfold vec3.cross. by run.
  - erewrite bind_ok by exact E3. apply dangling_read.
  - erewrite bind_ok by exact E3. apply dangling_read.
  - intros c. by erewrite bind_ok by exact E3.
Qed.

Lemma returning_an_element_is_ill_formed h (a : loc) p (body : loc → M T T) d :
  h !! a = Some p →
  body (fresh (dom h)) (<[fresh (dom h):=p]> h) = Ok d (<[fresh (dom h):=p]> h) →
  by_value a (λ a', d ← body a'; return_vector (of_element d)) h = IllFormed.
Proof.
  intros Ea Eb. unfold by_value. erewrite bind_ok by by apply read_ok.
  unfold mbind, M_bind, bind, alloc. simpl. by rewrite Eb.
Qed.

(** C8.  The member [dot] of [vec3] reads only and returns the products
    summed from left to right, starting from the first product: the inner
    product of the specification when [value_type{}] is neutral on its
    left.  The free function [dot(a, b)] evaluates [a.dot(b)] on its copy
    of [a] and then has to return that [T] as a vector, which nothing can
    make of it: the call is ill-formed and returns nothing.  In [vec] the
    member is written as the inner product itself, [std::transform_reduce]
    over the two arrays seeded with [value_type{}], but it names
    [p.first()] and [p.last()]: neither the member nor the free function
    can be called. *)
Theorem free_dot_cannot_return_its_value :
  (∀ h (a b : loc) a0 a1 a2 b0 b1 b2,
     h !! a = Some [a0; a1; a2] → h !! b = Some [b0; b1; b2] →
     vec3.dot a b h = Ok (tadd (tadd (tmul a0 b0) (tmul a1 b1)) (tmul a2 b2)) h ∧
     (tadd tzero (tmul a0 b0) = tmul a0 b0 →
      vec3.dot a b h = Ok (inner_product [a0; a1; a2] [b0; b1; b2]) h) ∧
     vec3.dot_free a b h = IllFormed) ∧
  (∀ h (a b : loc) p q,
     h !! a = Some p → h !! b = Some q → length p = length q →
     transform_reduce p q tzero = Some (inner_product p q) ∧
     vec.dot a b h = IllFormed ∧
     vec.dot_free a b h = IllFormed).
Proof.
  split.
  - intros h a b a0 a1 a2 b0 b1 b2 Ea Eb. split; [by apply vec3_dot_ok|].
    split.
    { intros Hz. rewrite (vec3_dot_ok h a b _ _ _ _ _ _ Ea Eb).
      unfold inner_product. simpl. by rewrite Hz. }
    eapply returning_an_element_is_ill_formed; [done|].
    eapply vec3_dot_ok; [apply lookup_insert_eq|].
    rewrite lookup_insert_ne; [done|]. symmetry. by eapply live_not_fresh.
  - intros h a b p q Ea Eb Hl.
    split; [apply transform_reduce_foldl; lia|]. split; [reflexivity|].
    by eapply by_value_ill_formed.
Qed.

End results.

(** ** Comparison *)

Section comparison.
Context `{Elem T}.
Implicit Types (h : gmap loc (list T)) (p q : list T).

Lemma equal_pairwise p : ∀ q,
  length p = length q → (equal p q = true ↔ pairwise_equal p q).
Proof.
  induction p as [|x p IH]; intros [|y q] Hl; simpl in *; try lia.
  - split; [|done]. by intros _ i a b.
  - destruct (teq x y) eqn:Exy.
    + rewrite IH by lia. split.
      * intros Hpq [|i] a b; simpl; [by intros [= <-] [= <-]|apply Hpq].
      * intros Hpq i a b. apply (Hpq (S i)).
    + split; [done|]. intros Hpq.
      rewrite <- Exy. by apply (Hpq 0).
Qed.

Lemma lexicographical_compare_less p : ∀ q,
  length p = length q →
  (lexicographical_compare p q = true ↔ lexicographically_less p q).
Proof.
  induction p as [|x p IH]; intros [|y q] Hl; simpl in *; try lia.
  - split; [done|]. by intros (i & a & b & ? & _).
  - destruct (tlt x y) eqn:Exy.
    { split; [|done]. intros _. exists 0, x, y. repeat split; try done; lia. }
    destruct (tlt y x) eqn:Eyx.
    { split; [done|]. intros ([|i] & a & b & Ea & Eb & Hab & Hj); simpl in *.
      - congruence.
      - destruct (Hj 0 x y) as [_ ?]; [lia|done..|congruence]. }
    rewrite IH by lia. split.
    + intros (i & a & b & Ea & Eb & Hab & Hj).
      exists (S i), a, b. do 3 (split; [done|]).
      intros [|j] c d Hji Ec Ed; simpl in *.
      * by injection Ec as <-; injection Ed as <-.
      * apply (Hj j); [lia|done..].
    + intros ([|i] & a & b & Ea & Eb & Hab & Hj); simpl in *; [congruence|].
      exists i, a, b. do 3 (split; [done|]).
      intros j c d Hji Ec Ed. apply (Hj (S j)); [lia|done..].
Qed.

(** C6, on the code.  What the operators are written to compute is what
    the claim says: [==] on two arrays of one length holds exactly when
    every pair of corresponding elements is equal, and [<] exactly when the
    element sequences are in lexicographic order with element 0 the most
    significant.  But [operator==] and [operator<] are free functions that
    read the private member [p] and are no friends of the classes: neither
    compiles, and [!=], [>], [<=], [>=], which call them, do not either,
    in [vec3] and in [vec] alike. *)
Theorem comparisons_are_ill_formed h (a b : loc) p q :
  h !! a = Some p → h !! b = Some q → length p = length q →
  ((equal p q = true ↔ pairwise_equal p q) ∧
   (lexicographical_compare p q = true ↔ lexicographically_less p q)) ∧
  (vec3.operator_eq a b h = IllFormed ∧
   vec3.operator_ne a b h = IllFormed ∧
   vec3.operator_lt a b h = IllFormed ∧
   vec3.operator_gt a b h = IllFormed ∧
   vec3.operator_le a b h = IllFormed ∧
   vec3.operator_ge a b h = IllFormed) ∧
  (vec.operator_eq a b h = IllFormed ∧
   vec.operator_ne a b h = IllFormed ∧
   vec.operator_lt a b h = IllFormed ∧
   vec.operator_gt a b h = IllFormed ∧
   vec.operator_le a b h = IllFormed ∧
   vec.operator_ge a b h = IllFormed).
Proof.
  intros Ea Eb Hl. split; [|by repeat split].
  split; [by apply equal_pairwise|by apply lexicographical_compare_less].
Qed.

End comparison.

(** ** [sum] and [mean] *)

Section sum.
Context `{Elem T}.
Implicit Types (h : gmap loc (list T)) (this : loc) (p : list T).

Lemma vec3_sum_ok h this a0 a1 a2 :
  h !! this = Some [a0; a1; a2] →
  vec3.sum this h = Ok (tadd (tadd a0 a1) a2) h.
Proof. intros Ea. unfold vec3.sum. by run. Qed.

Lemma vec3_mean_ok h this a0 a1 a2 :
  h !! this = Some [a0; a1; a2] →
  vec3.mean this h = Ok (tdiv_int (tadd (tadd a0 a1) a2) 3) h.
Proof.
  intros Ea. unfold vec3.mean. by erewrite bind_ok by by apply vec3_sum_ok.
Qed.

End sum.

(** C1, where the two classes part.  On the [int] vector (-3, 0, 0)
    [vec3<int>::mean()] divides the sum -3 by the [int] 3 and returns -1.
    [vec<int, 3>::mean()] returns nothing: it calls [sum()], which names
    [p.first()] and [p.second()].  The division it is written to perform
    on that sum, by the [std::size_t] [N], is no division by 3 as [vec3]
    has it either: -3 is first converted to an unsigned 64-bit value, and
    the quotient comes back as 1431655764. *)
Theorem mean_differs_on_negative_int (h : gmap loc (list Z)) (this : loc) :
  h !! this = Some [-3; 0; 0]%Z →
  vec3.mean this h = Ok (-1)%Z h ∧
  vec.mean 3 this h ≠ Ok (-1)%Z h ∧
  vec.mean 3 this h = IllFormed ∧
  tdiv_int (-3)%Z 3 = (-1)%Z ∧
  tdiv_size (-3)%Z (N.of_nat 3) = 1431655764%Z.
Proof.
  intros Ep. split; [by rewrite (vec3_mean_ok h this _ _ _ Ep)|].
  by repeat split.
Qed.

(** ** Where [vec3<T>] and [vec<T, 3>] agree *)

Section cross_validation.
Context `{Elem T}.
Implicit Types (h : gmap loc (list T)).

(** On the same three values the two classes give the same compound
    assignments and the same free operators, whatever [T] is: the loop of
    [vec] at [N = 3] and the three statements of [vec3] are one
    computation. *)
Lemma vec3_agrees_with_vec h (a b : loc) x y z u v w :
  h !! a = Some [x; y; z] → h !! b = Some [u; v; w] →
  vec.plus_assign 3 a b h = vec3.plus_assign a b h ∧
  vec.minus_assign 3 a b h = vec3.minus_assign a b h ∧
  vec.times_assign 3 a b h = vec3.times_assign a b h ∧
  vec.divide_assign 3 a b h = vec3.divide_assign a b h ∧
  vec.operator_plus 3 a b h = vec3.operator_plus a b h ∧
  vec.operator_minus 3 a b h = vec3.operator_minus a b h ∧
  vec.operator_times 3 a b h = vec3.operator_times a b h ∧
  vec.operator_divide 3 a b h = vec3.operator_divide a b h ∧
  (∀ r s, deref r h = Ok s h →
     vec.operator_times_scalar 3 a r h = vec3.operator_times_scalar a r h ∧
     vec.operator_divide_scalar 3 a r h = vec3.operator_divide_scalar a r h ∧
     (outside r a →
      vec.times_assign_scalar 3 a r h = vec3.times_assign_scalar a r h ∧
      vec.divide_assign_scalar 3 a r h = vec3.divide_assign_scalar a r h)).
Proof.
  intros Ea Eb.
  assert (∀ op : T → T → T,
    (for_range 0 3 (λ i, update a i op (load b i));; ret a) h
    = (update a 0 op (load b 0);; update a 1 op (load b 1);;
       update a 2 op (load b 2);; ret a) h) as Hassign.
  { intros op. rewrite (vec_elementwise_assign 3 h a b _ _ op Ea Eb) by done.
    by rewrite (vec3_elementwise_assign h a b _ _ _ _ _ _ op Ea Eb). }
  assert (∀ op : T → T → T,
    by_value a (λ lhs,
      r ← (for_range 0 3 (λ i, update lhs i op (load b i));; ret lhs);
      return_vector (of_vector r)) h
    = by_value a (λ lhs,
      r ← (update lhs 0 op (load b 0);; update lhs 1 op (load b 1);;
           update lhs 2 op (load b 2);; ret lhs);
      return_vector (of_vector r)) h) as Hfree.
  { intros op. rewrite (vec_operator 3 h a b _ _ op Ea Eb) by done.
    by rewrite (vec3_operator h a b _ _ _ _ _ _ op Ea Eb). }
  do 4 (split; [apply Hassign|]).
  do 4 (split; [apply Hfree|]).
  intros r s Er.
  assert (∀ op : T → T → T,
    by_value a (λ lhs,
      r' ← (for_range 0 3 (λ i, update lhs i op (deref r));; ret lhs);
      return_vector (of_vector r')) h
    = by_value a (λ lhs,
      r' ← (update lhs 0 op (deref r);; update lhs 1 op (deref r);;
            update lhs 2 op (deref r);; ret lhs);
      return_vector (of_vector r')) h) as Hfree_s.
  { intros op. rewrite (vec_operator_scalar 3 h a r _ s op Ea eq_refl Er).
    by rewrite (vec3_operator_scalar h a r _ _ _ s op Ea Er). }
  do 2 (split; [apply Hfree_s|]).
  intros Hr.
  assert (∀ op : T → T → T,
    (for_range 0 3 (λ i, update a i op (deref r));; ret a) h
    = (update a 0 op (deref r);; update a 1 op (deref r);;
       update a 2 op (deref r);; ret a) h) as Hassign_s.
  { intros op. rewrite (vec_scalar_assign 3 h a r _ s op Ea eq_refl Er Hr).
    by rewrite (vec3_scalar_assign h a r _ _ _ s op Ea Er Hr). }
  split; apply Hassign_s.
Qed.

End cross_validation.

(** ** The theorems at concrete vectors *)

Lemma int_store_0 : int_store !! 0 = Some [1; 2; 3]%Z.
Proof. reflexivity. Qed.

Lemma free_operators_value_semantics_witness :
  vec3_binary Plus 0 1 int_store = Ok [5; 7; 9]%Z int_store ∧
  vec3_scalar Times 0 (Elt 1 0) int_store = Ok [4; 8; 12]%Z int_store ∧
  vec_binary 3 Minus 0 1 int_store = Ok [-3; -3; -3]%Z int_store ∧
  vec_scalar 3 Divide 1 (Val 2%Z) int_store = Ok [2; 2; 3]%Z int_store.
Proof.
  destruct (free_operators_value_semantics (T:=Z)) as (Hvv & Hvs & Hnvv & Hnvs).
  split; [|split; [|split]].
  - exact (Hvv Plus int_store 0 1 _ _ _ _ _ _ eq_refl eq_refl).
  - exact (Hvs Times int_store 0 (Elt 1 0) _ _ _ 4%Z eq_refl eq_refl).
  - exact (Hnvv Minus 3 int_store 0 1 _ _ eq_refl eq_refl eq_refl eq_refl).
  - exact (Hnvs Divide 3 int_store 1 (Val 2%Z) _ 2%Z eq_refl eq_refl eq_refl).
Defined.

(** C7 as stated fails: [a + s] with [a = vec3<int>(1, 2, 3)] and [s = 2]
    does not return the vector (3, 4, 5); nor does it on [vec<int, 3>]. *)
Lemma no_vector_plus_scalar :
  vec3_scalar Plus 0 (Val 2%Z) int_store ≠ Ok [3; 4; 5]%Z int_store ∧
  vec_scalar 3 Plus 0 (Val 2%Z) int_store ≠ Ok [3; 4; 5]%Z int_store.
Proof. split; discriminate. Qed.

Lemma at_is_the_only_checked_access_witness :
  vec3.at_ 0 3 int_store = Throw (out_of_range "v::vec3::at") int_store ∧
  vec3.at_ 0 2 int_store = vec3.subscript 0 2 int_store ∧
  vec3.subscript 0 2 int_store = Ok (Elt 0 2) int_store.
Proof.
  split.
  - apply (at_is_the_only_checked_access (T:=Z) int_store 0 3). lia.
  - destruct (at_is_the_only_checked_access (T:=Z) int_store 0 2) as (_ & H2 & _).
    apply (H2 (le_n 3)).
Defined.

Lemma failing_at_leaves_vector_unmodified_witness :
  vec3.at_ 0 3 int_store = Throw (out_of_range "v::vec3::at") int_store ∧
  ∃ h', final_store (vec3.at_ 0 3 int_store) = Some h' ∧
    h' = int_store ∧ h' !! 0 = Some [1; 2; 3]%Z.
Proof.
  apply (failing_at_leaves_vector_unmodified (T:=Z) int_store 0 3 1%Z 2%Z 3%Z);
    [reflexivity|lia].
Defined.

Lemma named_setters_write_their_own_slot_witness :
  vec3.set_y 0 (Elt 1 2) int_store = Ok () (<[0:=[1; 6; 3]%Z]> int_store) ∧
  (r ← vec3.x 0; deref r) (<[0:=[1; 6; 3]%Z]> int_store)
    = Ok 1%Z (<[0:=[1; 6; 3]%Z]> int_store) ∧
  (r ← vec3.y 0; deref r) (<[0:=[1; 6; 3]%Z]> int_store)
    = Ok 6%Z (<[0:=[1; 6; 3]%Z]> int_store) ∧
  (r ← vec3.z 0; deref r) (<[0:=[1; 6; 3]%Z]> int_store)
    = Ok 3%Z (<[0:=[1; 6; 3]%Z]> int_store).
Proof.
  apply (named_setters_write_their_own_slot (T:=Z) int_store 0 (Elt 1 2)
           6%Z 1%Z 2%Z 3%Z); reflexivity.
Defined.

(** [vec3<double> v(0, 0, 0); v.normalize();] against a [vec<double, 3>]
    holding the same zeros. *)
Lemma normalize_of_vec_is_ill_formed_witness :
  (∃ m : float, vec3.magnitude 0 zero_store = Ok m zero_store ∧
     vec3.normalize 0 zero_store
     = Ok 0 (<[0:=[tdiv 0%float m; tdiv 0%float m; tdiv 0%float m]]> zero_store) ∧
     (m = tzero →
      vec3.normalize 0 zero_store
      = Ok 0 (<[0:=[tdiv 0%float tzero; tdiv 0%float tzero; tdiv 0%float tzero]]>
               zero_store))) ∧
  vec.normalize 3 0 zero_store = IllFormed ∧
  vec.normalize_free 3 0 zero_store = IllFormed.
Proof.
  destruct (normalize_of_vec_is_ill_formed (T:=float)) as [H3 HN].
  split; [apply H3; reflexivity|].
  destruct (HN 3 zero_store 0) as (_ & _ & Hn & Hf).
  split; [exact Hn|]. by eapply Hf.
Defined.

(** Normalising the zero vector of doubles: every element is 0/0, a NaN. *)
Example normalize_zero_vector_double :
  vec3.normalize 0 zero_store = Ok 0 {[ 0 := [nan; nan; nan] ]}.
Proof.
  pose proof (vec3_magnitude_ok zero_store 0 _ _ _ eq_refl) as Em.
  by rewrite (vec3_normalize_ok zero_store 0 _ _ _ _ eq_refl Em).
Qed.

(** [vec3<int> a(1, 2, 3), b(4, 5, 6); a < b;], and the same on
    [vec<int, 3>]. *)
Lemma comparisons_are_ill_formed_witness :
  lexicographically_less [1; 2; 3]%Z [4; 5; 6]%Z ∧
  vec3.operator_lt 0 1 int_store = IllFormed ∧
  vec3.operator_eq 0 1 int_store = IllFormed ∧
  vec.operator_lt 0 1 int_store = IllFormed.
Proof.
  destruct (comparisons_are_ill_formed (T:=Z) int_store 0 1 _ _
              eq_refl eq_refl eq_refl)
    as [[_ Hlt] [(Eeq3 & _ & Elt3 & _) (_ & _ & EltN & _)]].
  split; [by apply Hlt|]. split; [exact Elt3|]. split; [exact Eeq3|exact EltN].
Defined.

(** [vec3<int>(1, 2, 3).prod()] against [prod()] of a [vec<int, 3>]
    holding 1, 2, 3. *)
Lemma prod_of_vec_is_ill_formed_witness :
  vec3.prod 0 int_store = Ok 6%Z int_store ∧
  vec.prod 0 int_store = IllFormed.
Proof.
  destruct (prod_of_vec_is_ill_formed (T:=Z)) as (_ & Hint & _ & HN).
  split; [by apply Hint|apply HN].
Defined.

Lemma mean_differs_on_negative_int_witness :
  vec3.mean 0 negative_store = Ok (-1)%Z negative_store ∧
  vec.mean 3 0 negative_store ≠ Ok (-1)%Z negative_store ∧
  vec.mean 3 0 negative_store = IllFormed ∧
  tdiv_int (-3)%Z 3 = (-1)%Z ∧
  tdiv_size (-3)%Z (N.of_nat 3) = 1431655764%Z.
Proof. apply (mean_differs_on_negative_int negative_store 0). reflexivity. Defined.

(** [vec3<int>(1,2,3)]: [sum()] is 6 and [mean()] is 2. *)
Example sum_and_mean_of_1_2_3 :
  vec3.sum 0 int_store = Ok 6%Z int_store ∧
  vec3.mean 0 int_store = Ok 2%Z int_store.
Proof.
  rewrite (vec3_sum_ok int_store 0 _ _ _ int_store_0).
  by rewrite (vec3_mean_ok int_store 0 _ _ _ int_store_0).
Qed.

Lemma cross_returns_dangling_reference_witness :
  vec3.cross 0 1 double_store = Ok 3 double_store ∧
  cross_list 1%float 0%float 0%float 0%float 1%float 0%float
    = [0%float; 0%float; 1%float] ∧
  double_store !! 3 = None ∧
  (r ← vec3.cross 0 1; read r) double_store = Undefined ∧
  (r ← vec3.cross 0 1; vec3.operator_eq r 2) double_store = IllFormed ∧
  vec.cross 0 1 double_store = IllFormed.
Proof.
  destruct (cross_returns_dangling_reference (T:=float) double_store 0 1
              1%float 0%float 0%float 0%float 1%float 0%float eq_refl eq_refl)
    as [(_ & E3 & Hdead & Hread & _ & Heq) EN].
  split; [exact E3|]. split; [reflexivity|]. split; [exact Hdead|].
  split; [exact Hread|]. split; [apply Heq|exact EN].
Defined.

Lemma free_dot_cannot_return_its_value_witness :
  vec3.dot 0 1 int_store = Ok 32%Z int_store ∧
  vec3.dot_free 0 1 int_store = IllFormed ∧
  vec.dot 0 1 int_store = IllFormed ∧
  vec.dot_free 0 1 int_store = IllFormed.
Proof.
  destruct (free_dot_cannot_return_its_value (T:=Z)) as [H3 HN].
  destruct (H3 int_store 0 1 _ _ _ _ _ _ eq_refl eq_refl) as (E3 & _ & F3).
  destruct (HN int_store 0 1 _ _ eq_refl eq_refl eq_refl) as (_ & EN & FN).
  split; [exact E3|]. split; [exact F3|]. split; [exact EN|exact FN].
Defined.

(** * Further properties of the two headers *)

(** ** [swap] *)

Section swap.
Context `{Elem T}.
Implicit Types (h : gmap loc (list T)) (this other : loc) (p q : list T).

Lemma swap_body_ok h this other p q :
  h !! this = Some p → h !! other = Some q →
  (a ← read this; b ← read other; write this b;; write other a) h
  = Ok () (<[other:=p]> (<[this:=q]> h)).
Proof.
  intros Ep Eq. run.
  erewrite bind_ok by (by eapply write_ok).
  destruct (decide (other = this)) as [->|Hne].
  - eapply write_ok. apply lookup_insert_eq.
  - eapply write_ok. by rewrite lookup_insert_ne.
Qed.

Lemma swap_back h this other p q :
  h !! this = Some p → h !! other = Some q →
  <[other:=q]> (<[this:=p]> (<[other:=p]> (<[this:=q]> h))) = h.
Proof.
  intros Ep Eq. apply map_eq. intros l.
  destruct (decide (l = other)) as [->|Ho]; [by rewrite lookup_insert_eq|].
  rewrite lookup_insert_ne by done.
  destruct (decide (l = this)) as [->|Ht]; [by rewrite lookup_insert_eq|].
  by rewrite !lookup_insert_ne by done.
Qed.

(** [a.swap(b)] exchanges the elements of the two vectors and touches
    nothing else; swapping again restores the store, and swapping a vector
    with itself changes nothing. *)
Theorem swap_exchanges_and_is_an_involution h this other p q :
  h !! this = Some p → h !! other = Some q →
  (vec3.swap this other h = Ok () (<[other:=p]> (<[this:=q]> h)) ∧
   (vec3.swap this other;; vec3.swap this other) h = Ok () h ∧
   vec3.swap this this h = Ok () h) ∧
  (vec.swap this other h = Ok () (<[other:=p]> (<[this:=q]> h)) ∧
   (vec.swap this other;; vec.swap this other) h = Ok () h ∧
   vec.swap this this h = Ok () h).
Proof.
  intros Ep Eq.
  assert ((a ← read this; b ← read other; write this b;; write other a) h
          = Ok () (<[other:=p]> (<[this:=q]> h))) as E1 by by apply swap_body_ok.
  assert (((a ← read this; b ← read other; write this b;; write other a);;
           (a ← read this; b ← read other; write this b;; write other a)) h
          = Ok () h) as E2.
  { erewrite bind_ok by exact E1.
    destruct (decide (this = other)) as [->|Hne].
    - assert (p = q) as -> by congruence.
      erewrite swap_body_ok by apply lookup_insert_eq.
      by rewrite !insert_insert_eq, insert_id.
    - erewrite swap_body_ok;
        [|by rewrite lookup_insert_ne, lookup_insert_eq by done
         |apply lookup_insert_eq].
      by rewrite swap_back. }
  assert ((a ← read this; b ← read this; write this b;; write this a) h
          = Ok () h) as E3.
  { erewrite swap_body_ok by done. by rewrite insert_insert_eq, insert_id. }
  done.
Qed.

End swap.

Lemma swap_exchanges_and_is_an_involution_witness :
  vec3.swap 0 1 int_store = Ok () (<[1:=[1; 2; 3]%Z]> (<[0:=[4; 5; 6]%Z]> int_store)) ∧
  (vec3.swap 0 1;; vec3.swap 0 1) int_store = Ok () int_store ∧
  vec3.swap 0 0 int_store = Ok () int_store.
Proof.
  apply (swap_exchanges_and_is_an_involution (T:=Z) int_store 0 1); reflexivity.
Defined.

(** ** [fill] *)

Section fill.
Context `{Elem T}.
Implicit Types (h : gmap loc (list T)) (this : loc) (p : list T) (u : tref T).

(** The loop of [std::array::fill]: after [i] rounds the first [i]
    elements hold the value. *)
Lemma fill_loop h this u p s n : ∀ i,
  i + n = length p →
  (∀ j, j ≤ length p →
     deref u (<[this:=replicate j s ++ drop j p]> h)
     = Ok s (<[this:=replicate j s ++ drop j p]> h)) →
  for_range i n (λ j, t ← deref u; store this j t)
    (<[this:=replicate i s ++ drop i p]> h)
  = Ok () (<[this:=replicate (i + n) s ++ drop (i + n) p]> h).
Proof.
  induction n as [|n IH]; intros i Hl Hu; simpl.
  - by rewrite Nat.add_0_r.
  - destruct (lookup_lt_is_Some_2 p i) as [a Ea]; [lia|].
    erewrite bind_ok.
    2:{ erewrite bind_ok by (apply Hu; lia).
        eapply store_ok; [apply lookup_insert_eq|].
        rewrite length_app, length_replicate, length_drop. lia. }
    rewrite insert_insert_eq.
    replace (<[i:=s]> (replicate i s ++ drop i p))
      with (replicate (S i) s ++ drop (S i) p).
    + rewrite IH by (done || lia). by replace (S i + n) with (i + S n) by lia.
    + rewrite insert_app_r_alt; rewrite length_replicate; [|lia].
      rewrite Nat.sub_diag, (drop_S p a i Ea).
      by rewrite replicate_S_end, <- app_assoc.
Qed.

Lemma fill_source h this u p s :
  h !! this = Some p → deref u h = Ok s h →
  ∀ j, j ≤ length p →
    deref u (<[this:=replicate j s ++ drop j p]> h)
    = Ok s (<[this:=replicate j s ++ drop j p]> h).
Proof.
  intros Ep Eu j Hj. destruct u as [t|l k]; simpl in *; [by injection Eu as ->|].
  apply load_inv in Eu as (_ & q & El & Ek).
  destruct (decide (l = this)) as [->|Hne].
  - assert (q = p) as -> by congruence.
    eapply load_ok; [apply lookup_insert_eq|].
    destruct (decide (k < j)) as [Hk|Hk].
    + rewrite lookup_app_l by (rewrite length_replicate; lia).
      apply lookup_replicate. done.
    + rewrite lookup_app_r by (rewrite length_replicate; lia).
      rewrite length_replicate, lookup_drop. by replace (j + (k - j)) with k by lia.
  - eapply load_ok; [|done]. by rewrite lookup_insert_ne.
Qed.

Lemma fill_ok N h this u p s :
  h !! this = Some p → length p = N → deref u h = Ok s h →
  for_range 0 N (λ j, t ← deref u; store this j t) h
  = Ok () (<[this:=replicate N s]> h).
Proof.
  intros Ep Hp Eu.
  rewrite <- (insert_id h this p Ep) at 1.
  pose proof (fill_loop h this u p s N 0) as Hloop. simpl in Hloop.
  rewrite drop_0 in Hloop. rewrite Hloop; [|lia|by apply fill_source].
  by rewrite drop_ge, app_nil_r by lia.
Qed.

(** [v.fill(u)] sets every element of [v] to the value [u] has when the
    call starts, and changes nothing else; [u] may be any live element, of
    another vector or of [v] itself. *)
Theorem fill_sets_every_element h this u s :
  deref u h = Ok s h →
  (∀ a0 a1 a2, h !! this = Some [a0; a1; a2] →
     vec3.fill this u h = Ok () (<[this:=[s; s; s]]> h)) ∧
  (∀ N p, h !! this = Some p → length p = N →
     vec.fill N this u h = Ok () (<[this:=replicate N s]> h)).
Proof.
  intros Eu. split.
  - intros a0 a1 a2 Ea. by apply (fill_ok 3 h this u [a0; a1; a2] s).
  - intros N p Ep Hp. by apply (fill_ok N h this u p s).
Qed.

End fill.

Lemma fill_sets_every_element_witness :
  vec3.fill 0 (Elt 0 2) int_store = Ok () (<[0:=[3; 3; 3]%Z]> int_store) ∧
  vec.fill 3 1 (Elt 0 0) int_store = Ok () (<[1:=[1; 1; 1]%Z]> int_store).
Proof.
  split.
  - apply (proj1 (fill_sets_every_element (T:=Z) int_store 0 (Elt 0 2) 3%Z eq_refl)
             1%Z 2%Z 3%Z eq_refl).
  - apply (proj2 (fill_sets_every_element (T:=Z) int_store 1 (Elt 0 0) 1%Z eq_refl)
             3 [4; 5; 6]%Z eq_refl eq_refl).
Defined.

(** ** Construction and access *)

Section construction.
Context `{Elem T}.
Implicit Types (h : gmap loc (list T)).

Lemma construct_ok h (x y z : tref T) a b c :
  deref x h = Ok a h → deref y h = Ok b h → deref z h = Ok c h →
  vec3.construct x y z h = Ok (fresh (dom h)) (<[fresh (dom h):=[a; b; c]]> h).
Proof.
  intros Ex Ey Ez. unfold vec3.construct.
  erewrite bind_ok by exact Ex. erewrite bind_ok by exact Ey.
  by erewrite bind_ok by exact Ez.
Qed.

(** [vec3(x, y, z)] makes a new object, beside the objects there are and
    without changing them, that holds the three values: [x()], [y()],
    [z()], [operator[]] and [at] at 0, 1, 2 read them back. *)
Theorem construct_then_access h (x y z : tref T) a b c :
  deref x h = Ok a h → deref y h = Ok b h → deref z h = Ok c h →
  ∃ v h',
    vec3.construct x y z h = Ok v h' ∧
    h !! v = None ∧ h' = <[v:=[a; b; c]]> h ∧
    (r ← vec3.x v; deref r) h' = Ok a h' ∧
    (r ← vec3.y v; deref r) h' = Ok b h' ∧
    (r ← vec3.z v; deref r) h' = Ok c h' ∧
    (r ← vec3.subscript v 0; deref r) h' = Ok a h' ∧
    (r ← vec3.subscript v 1; deref r) h' = Ok b h' ∧
    (r ← vec3.subscript v 2; deref r) h' = Ok c h' ∧
    (r ← vec3.at_ v 0; deref r) h' = Ok a h' ∧
    (r ← vec3.at_ v 1; deref r) h' = Ok b h' ∧
    (r ← vec3.at_ v 2; deref r) h' = Ok c h'.
Proof.
  intros Ex Ey Ez. eexists _, _.
  split; [by apply construct_ok|]. split; [apply fresh_dead|]. split; [done|].
  assert (∀ n t, [a; b; c] !! n = Some t → n < 3 →
    (r ← vec3.p_subscript (fresh (dom h)) n; deref r)
      (<[fresh (dom h):=[a; b; c]]> h)
    = Ok t (<[fresh (dom h):=[a; b; c]]> h)) as Hget.
  { intros n t En Hn. eapply vec3_get_slot; [apply lookup_insert_eq|done..]. }
  assert (∀ n t, [a; b; c] !! n = Some t → n < 3 →
    (r ← vec3.at_ (fresh (dom h)) n; deref r)
      (<[fresh (dom h):=[a; b; c]]> h)
    = Ok t (<[fresh (dom h):=[a; b; c]]> h)) as Hat.
  { intros n t En Hn. erewrite bind_ok by by apply at_in_range.
    simpl. eapply load_ok; [apply lookup_insert_eq|done]. }
  repeat split; first [by apply Hget; [|lia]|by apply Hat; [|lia]].
Qed.

End construction.

Lemma construct_then_access_witness :
  ∃ v h',
    vec3.construct (Val 7%Z) (Elt 0 1) (Elt 1 2) int_store = Ok v h' ∧
    int_store !! v = None ∧ h' = <[v:=[7; 2; 6]%Z]> int_store ∧
    (r ← vec3.x v; deref r) h' = Ok 7%Z h' ∧
    (r ← vec3.y v; deref r) h' = Ok 2%Z h' ∧
    (r ← vec3.z v; deref r) h' = Ok 6%Z h' ∧
    (r ← vec3.subscript v 0; deref r) h' = Ok 7%Z h' ∧
    (r ← vec3.subscript v 1; deref r) h' = Ok 2%Z h' ∧
    (r ← vec3.subscript v 2; deref r) h' = Ok 6%Z h' ∧
    (r ← vec3.at_ v 0; deref r) h' = Ok 7%Z h' ∧
    (r ← vec3.at_ v 1; deref r) h' = Ok 2%Z h' ∧
    (r ← vec3.at_ v 2; deref r) h' = Ok 6%Z h'.
Proof.
  apply (construct_then_access (T:=Z) int_store (Val 7%Z) (Elt 0 1) (Elt 1 2));
    reflexivity.
Defined.

(** ** The compound assignments *)

Section compound.
Context `{Elem T}.
Implicit Types (h : gmap loc (list T)) (this rhs : loc) (p q : list T).

(** [a += b], [a -= b], [a *= b], [a /= b] replace each element of [a] by
    [a[i] op b[i]], return [a] itself and change no other object; [b] may
    be [a], and then each element is combined with its own old value. *)
Theorem compound_assignment_is_elementwise_in_place :
  (∀ h this rhs a0 a1 a2 b0 b1 b2,
     h !! this = Some [a0; a1; a2] → h !! rhs = Some [b0; b1; b2] →
     vec3.plus_assign this rhs h
       = Ok this (<[this:=[tadd a0 b0; tadd a1 b1; tadd a2 b2]]> h) ∧
     vec3.minus_assign this rhs h
       = Ok this (<[this:=[tsub a0 b0; tsub a1 b1; tsub a2 b2]]> h) ∧
     vec3.times_assign this rhs h
       = Ok this (<[this:=[tmul a0 b0; tmul a1 b1; tmul a2 b2]]> h) ∧
     vec3.divide_assign this rhs h
       = Ok this (<[this:=[tdiv a0 b0; tdiv a1 b1; tdiv a2 b2]]> h)) ∧
  (∀ N h this rhs p q,
     h !! this = Some p → h !! rhs = Some q → length p = N → length q = N →
     vec.plus_assign N this rhs h = Ok this (<[this:=zip_with tadd p q]> h) ∧
     vec.minus_assign N this rhs h = Ok this (<[this:=zip_with tsub p q]> h) ∧
     vec.times_assign N this rhs h = Ok this (<[this:=zip_with tmul p q]> h) ∧
     vec.divide_assign N this rhs h = Ok this (<[this:=zip_with tdiv p q]> h)) ∧
  (∀ N h this p,
     h !! this = Some p → length p = N →
     vec.plus_assign N this this h = Ok this (<[this:=zip_with tadd p p]> h) ∧
     vec.divide_assign N this this h = Ok this (<[this:=zip_with tdiv p p]> h)).
Proof.
  split; [|split].
  - intros * Ea Eb. repeat split; by apply vec3_elementwise_assign.
  - intros * Ep Eq Hp Hq. repeat split; by apply vec_elementwise_assign.
  - intros * Ep Hp. split; by apply vec_elementwise_assign.
Qed.

(** [a *= s] and [a /= s] replace each element of [a] by [a[i] op s] when
    the scalar is no element of [a].  The scalar is taken by reference:
    when it is [a]'s own first element, that element is updated first and
    the later elements are combined with its new value, while the
    value-returning [a * a.x()] combines every element with the old one
    and leaves [a] alone. *)
Theorem scalar_assignment_reads_its_operand_each_time :
  (∀ h this v a0 a1 a2 s,
     h !! this = Some [a0; a1; a2] → deref v h = Ok s h → outside v this →
     vec3.times_assign_scalar this v h
       = Ok this (<[this:=[tmul a0 s; tmul a1 s; tmul a2 s]]> h) ∧
     vec3.divide_assign_scalar this v h
       = Ok this (<[this:=[tdiv a0 s; tdiv a1 s; tdiv a2 s]]> h)) ∧
  (∀ N h this v p s,
     h !! this = Some p → length p = N → deref v h = Ok s h → outside v this →
     vec.times_assign_scalar N this v h
       = Ok this (<[this:=(λ x, tmul x s) <$> p]> h) ∧
     vec.divide_assign_scalar N this v h
       = Ok this (<[this:=(λ x, tdiv x s) <$> p]> h)) ∧
  (∀ h this a0 a1 a2,
     h !! this = Some [a0; a1; a2] →
     (r ← vec3.x this; vec3.times_assign_scalar this r) h
       = Ok this (<[this:=[tmul a0 a0; tmul a1 (tmul a0 a0);
                           tmul a2 (tmul a0 a0)]]> h) ∧
     (r ← vec3.x this; vec3.operator_times_scalar this r) h
       = Ok [tmul a0 a0; tmul a1 a0; tmul a2 a0] h).
Proof.
  split; [|split].
  - intros * Ea Ev Hv. split; by apply vec3_scalar_assign.
  - intros * Ep Hp Ev Hv. split; by apply vec_scalar_assign.
  - intros * Ea.
    assert (vec3.x this h = Ok (Elt this 0) h) as Ex
      by (unfold vec3.x, vec3.p_subscript; by rewrite decide_True by lia).
    split; erewrite bind_ok by exact Ex.
    + by apply vec3_scalar_assign_aliased.
    + apply vec3_operator_scalar; [done|]. by eapply load_ok.
Qed.

(** ** The free [normalize] *)

(** [normalize(v)] on a [vec3] returns the elements of [v] divided by its
    magnitude and leaves [v] and the rest of the store as they are, where
    the member [v.normalize()] overwrites [v]. *)
Theorem free_normalize_returns_a_normalized_copy h (a : loc) a0 a1 a2 :
  h !! a = Some [a0; a1; a2] →
  ∃ m, vec3.magnitude a h = Ok m h ∧
    vec3.normalize_free a h = Ok [tdiv a0 m; tdiv a1 m; tdiv a2 m] h ∧
    vec3.normalize a h = Ok a (<[a:=[tdiv a0 m; tdiv a1 m; tdiv a2 m]]> h).
Proof.
  intros Ea. eexists. split; [by apply vec3_magnitude_ok|].
  split; [|by apply vec3_normalize_ok, vec3_magnitude_ok].
  apply (free_operator_ok h a [a0; a1; a2] vec3.normalize); [done|].
  apply vec3_normalize_ok; [apply lookup_insert_eq|].
  apply vec3_magnitude_ok, lookup_insert_eq.
Qed.

End compound.

Lemma compound_assignment_is_elementwise_in_place_witness :
  vec3.plus_assign 0 1 int_store = Ok 0 (<[0:=[5; 7; 9]%Z]> int_store) ∧
  vec.times_assign 3 1 0 int_store = Ok 1 (<[1:=[4; 10; 18]%Z]> int_store) ∧
  vec.plus_assign 3 0 0 int_store = Ok 0 (<[0:=[2; 4; 6]%Z]> int_store).
Proof.
  destruct (compound_assignment_is_elementwise_in_place (T:=Z)) as (H3 & HN & Hself).
  split; [|split].
  - exact (proj1 (H3 int_store 0 1 _ _ _ _ _ _ eq_refl eq_refl)).
  - exact (proj1 (proj2 (proj2 (HN 3 int_store 1 0 _ _ eq_refl eq_refl eq_refl eq_refl)))).
  - exact (proj1 (Hself 3 int_store 0 _ eq_refl eq_refl)).
Defined.

Lemma scalar_assignment_reads_its_operand_each_time_witness :
  vec3.times_assign_scalar 0 (Elt 1 0) int_store
    = Ok 0 (<[0:=[4; 8; 12]%Z]> int_store) ∧
  (r ← vec3.x 1; vec3.times_assign_scalar 1 r) int_store
    = Ok 1 (<[1:=[16; 80; 96]%Z]> int_store) ∧
  (r ← vec3.x 1; vec3.operator_times_scalar 1 r) int_store
    = Ok [16; 20; 24]%Z int_store.
Proof.
  destruct (scalar_assignment_reads_its_operand_each_time (T:=Z)) as (H3 & _ & Hx).
  split; [|split].
  - exact (proj1 (H3 int_store 0 (Elt 1 0) _ _ _ 4%Z eq_refl eq_refl
                    (λ E : 1 = 0, O_S 0 (eq_sym E)))).
  - exact (proj1 (Hx int_store 1 _ _ _ eq_refl)).
  - exact (proj2 (Hx int_store 1 _ _ _ eq_refl)).
Defined.

Lemma free_normalize_returns_a_normalized_copy_witness :
  ∃ m : float, vec3.magnitude 0 double_store = Ok m double_store ∧
    vec3.normalize_free 0 double_store
      = Ok [tdiv 1%float m; tdiv 0%float m; tdiv 0%float m] double_store ∧
    vec3.normalize 0 double_store
      = Ok 0 (<[0:=[tdiv 1%float m; tdiv 0%float m; tdiv 0%float m]]> double_store).
Proof.
  apply (free_normalize_returns_a_normalized_copy (T:=float) double_store 0).
  reflexivity.
Defined.

(** ** What each operation leaves alone *)

Section frame_rules.
Context `{Elem T}.
Implicit Types (h : gmap loc (list T)) (l : loc) (W : loc → Prop).

Lemma bind_Ok_inv {A B} (m : M T A) (k : A → M T B) h b h' :
  (m ≫= k) h = Ok b h' → ∃ a h1, m h = Ok a h1 ∧ k a h1 = Ok b h'.
Proof.
  unfold mbind, M_bind, bind. destruct (m h) as [a h1| | |]; try done. eauto.
Qed.

Lemma keeps_unchanged W {A} (m : M T A) :
  (∀ h a h', m h = Ok a h' → h' = h) → keeps W m.
Proof. intros Hm h a h' ->%Hm. done. Qed.

Lemma keeps_ret W {A} (a : A) : keeps (T:=T) W (ret a).
Proof. apply keeps_unchanged. by intros h a' h' [= _ ->]. Qed.

Lemma keeps_bind W {A B} (m : M T A) (k : A → M T B) :
  keeps W m → (∀ a, keeps W (k a)) → keeps W (m ≫= k).
Proof.
  intros Hm Hk h b h' (a & h1 & E1 & E2)%bind_Ok_inv.
  destruct (Hm _ _ _ E1) as (Hd1 & Hf1 & Hs1).
  destruct (Hk a _ _ _ E2) as (Hd2 & Hf2 & Hs2).
  split; [congruence|]. split.
  - intros l Hl. by rewrite Hf2, Hf1.
  - intros n Hn. by apply Hs2, Hs1.
Qed.

Lemma keeps_failure W {A} (m : M T A) : (∀ h a h', m h ≠ Ok a h') → keeps W m.
Proof. intros Hm h a h' E. by destruct (Hm h a h'). Qed.

Lemma keeps_raise W {A} e : keeps (T:=T) (A:=A) W (raise e).
Proof. by apply keeps_failure. Qed.

Lemma keeps_undefined W {A} : keeps (T:=T) (A:=A) W undefined.
Proof. by apply keeps_failure. Qed.

Lemma keeps_ill_formed W {A} : keeps (T:=T) (A:=A) W ill_formed.
Proof. by apply keeps_failure. Qed.

Lemma keeps_lift W {A} (o : option A) : keeps (T:=T) W (lift o).
Proof. destruct o; [apply keeps_ret|apply keeps_undefined]. Qed.

Lemma keeps_read W l : keeps (T:=T) W (read l).
Proof.
  apply keeps_unchanged. intros h a h'. unfold read.
  destruct (h !! l); [by intros [= _ ->]|done].
Qed.

Lemma keeps_load W l i : keeps (T:=T) W (load l i).
Proof.
  apply keeps_bind; [apply keeps_read|]. intros p. apply (keeps_lift W (p !! i)).
Qed.

Lemma keeps_deref W (v : tref T) : keeps W (deref v).
Proof. destruct v; [apply keeps_ret|apply keeps_load]. Qed.

Lemma keeps_store W l i t : W l → keeps (T:=T) W (store l i t).
Proof.
  intros HW h a h'. unfold store, read, write, mbind, M_bind, bind.
  destruct (h !! l) as [p|] eqn:El; [|done].
  case_decide as Hi; [|done]. rewrite El. intros [= _ <-].
  split; [by apply dom_insert_lookup_L|]. split.
  - intros l' Hl'. rewrite lookup_insert_ne; [done|]. by intros ->.
  - intros n Hn l' p'. destruct (decide (l' = l)) as [->|Hne].
    + rewrite lookup_insert_eq. intros [= <-]. rewrite length_insert. by eapply Hn.
    + rewrite lookup_insert_ne by done. apply Hn.
Qed.

Lemma keeps_update W l i op (e : M T T) :
  W l → keeps W e → keeps W (update l i op e).
Proof.
  intros HW He. apply keeps_bind; [done|]. intros b.
  apply keeps_bind; [apply keeps_load|]. intros a. by apply keeps_store.
Qed.

Lemma keeps_for_range W (body : nat → M T ()) n :
  (∀ i, keeps W (body i)) → ∀ i, keeps W (for_range i n body).
Proof.
  intros Hb. induction n as [|n IH]; intros i; simpl; [apply keeps_ret|].
  apply keeps_bind; [apply Hb|]. intros _. apply IH.
Qed.

Lemma keeps_return_vector W (o : operand T) : keeps W (return_vector o).
Proof. destruct o; [apply keeps_read|apply keeps_ill_formed]. Qed.

Lemma keeps_discard W {A} (m : M T A) : keeps W m → keeps W (discard m).
Proof. intros Hm. apply keeps_bind; [done|]. intros _. apply keeps_ret. Qed.

(** A temporary that is made and destroyed leaves no trace. *)
Lemma keeps_temporary W p : keeps (T:=T) W (t ← alloc p; destroy t;; ret t).
Proof.
  apply keeps_unchanged. intros h a h'. rewrite temporary_dies. by intros [= _ ->].
Qed.

(** A by-value parameter is the only object its function may write, and
    it is gone when the function returns. *)
Lemma keeps_by_value W {A} l (body : loc → M T A) :
  (∀ v, keeps (λ l', l' = v) (body v)) → keeps W (by_value l body).
Proof.
  intros Hb. apply keeps_unchanged. intros h r h'.
  unfold by_value, read, alloc, destroy, mbind, M_bind, bind. simpl.
  destruct (h !! l) as [p|]; [|done].
  destruct (body _ _) as [r' h2| | |] eqn:Eb; try done.
  intros [= _ <-]. destruct (Hb _ _ _ _ Eb) as (_ & Hf & _).
  apply map_eq. intros l'. destruct (decide (l' = fresh (dom h))) as [->|Hne].
  - by rewrite lookup_delete_eq, fresh_dead.
  - by rewrite lookup_delete_ne, Hf, lookup_insert_ne.
Qed.

Lemma keeps_swap this other :
  keeps (T:=T) (λ l, l ∈ [this; other])
    (a ← read this; b ← read other; write this b;; write other a).
Proof.
  intros h r h' E.
  destruct (h !! this) as [p|] eqn:Ep;
    [|by unfold read, mbind, M_bind, bind in E; rewrite Ep in E].
  destruct (h !! other) as [q|] eqn:Eq;
    [|by unfold read, mbind, M_bind, bind in E; rewrite Ep, Eq in E].
  rewrite (swap_body_ok h this other p q Ep Eq) in E.
  assert (h' = <[other:=p]> (<[this:=q]> h)) as -> by congruence.
  split; [|split].
  - rewrite !dom_insert_lookup_L; [done..|].
    destruct (decide (other = this)) as [->|?];
      [by rewrite lookup_insert_eq|by rewrite lookup_insert_ne].
  - intros l Hl. rewrite !lookup_insert_ne; [done|intros ->..]; apply Hl; set_solver.
  - intros n Hn l p'.
    destruct (decide (l = other)) as [->|Ho];
      [rewrite lookup_insert_eq; intros [= <-]; by eapply Hn|].
    rewrite lookup_insert_ne by done.
    destruct (decide (l = this)) as [->|Ht];
      [rewrite lookup_insert_eq; intros [= <-]; by eapply Hn|].
    rewrite lookup_insert_ne by done. apply Hn.
Qed.

End frame_rules.

Create HintDb keeps discriminated.
#[export] Hint Resolve keeps_ret keeps_raise keeps_undefined
  keeps_ill_formed keeps_lift keeps_read keeps_load keeps_deref
  keeps_return_vector keeps_temporary keeps_swap : keeps.

Ltac keeps_steps :=
  repeat first
    [ progress intros
    | solve [auto with keeps]
    | apply keeps_by_value
    | apply keeps_for_range
    | apply keeps_discard
    | apply keeps_store; solve [reflexivity | set_solver]
    | apply keeps_update; [solve [reflexivity | set_solver]|]
    | apply keeps_bind
    | case_decide ].

Section frames_of_calls.
Context `{Elem T}.
Implicit Types (h : gmap loc (list T)).

Lemma vec3_run_keeps (c : vec3_call T) ls :
  vec3_writes c = Some ls → keeps (λ l, l ∈ ls) (vec3_run c).
Proof.
  destruct c; simpl; intros [= <-];
    unfold vec3.swap, vec3.fill, vec3.x, vec3.y, vec3.z,
      vec3.set_x, vec3.set_y, vec3.set_z, vec3.normalize, vec3.mean, vec3.dot,
      vec3.cross, vec3.magnitude, vec3.sum, vec3.prod, vec3.min,
      vec3.max, vec3.minus_assign, vec3.plus_assign, vec3.times_assign,
      vec3.divide_assign, vec3.subscript, vec3.at_, vec3.throw_out_of_range,
      vec3.normalize_free, vec3.dot_free, vec3.operator_plus, vec3.operator_minus,
      vec3.operator_times, vec3.operator_divide, vec3.operator_times_scalar,
      vec3.operator_divide_scalar, vec3.operator_ne,
      vec3.operator_le, vec3.operator_ge, vec3.operator_gt, vec3.operator_lt,
      vec3.operator_eq, vec3.normalize, vec3.magnitude, vec3.dot,
      vec3.times_assign_scalar, vec3.divide_assign_scalar, vec3.magnitude2,
      vec3.sum, vec3.plus_assign, vec3.minus_assign, vec3.times_assign,
      vec3.divide_assign, vec3.p_subscript, vec3.p_first, vec3.p_last,
      vec3.private_p;
    keeps_steps.
Qed.

Lemma vec_run_keeps N (c : vec_call T) :
  keeps (λ l, l ∈ vec_writes c) (vec_run N c).
Proof.
  destruct c; simpl;
    unfold vec.swap, vec.fill, vec.normalize, vec.mean, vec.dot,
      vec.cross, vec.magnitude, vec.sum, vec.prod, vec.min,
      vec.max, vec.minus_assign, vec.plus_assign, vec.times_assign,
      vec.divide_assign, vec.subscript,
      vec.normalize_free, vec.dot_free, vec.operator_plus, vec.operator_minus,
      vec.operator_times, vec.operator_divide, vec.operator_times_scalar,
      vec.operator_divide_scalar, vec.operator_ne,
      vec.operator_le, vec.operator_ge, vec.operator_gt, vec.operator_lt,
      vec.operator_eq, vec.normalize, vec.magnitude, vec.dot,
      vec.times_assign_scalar, vec.divide_assign_scalar, vec.magnitude2,
      vec.sum, vec.plus_assign, vec.minus_assign, vec.times_assign,
      vec.divide_assign, vec.p_subscript, vec.p_first, vec.p_second,
      vec.p_last, vec.private_p, vec.from_braced_list;
    keeps_steps.
Qed.

Lemma nothing_written h h' :
  (∀ l, l ∉ ([] : list loc) → h' !! l = h !! l) → h' = h.
Proof. intros Hf. apply map_eq. intros l. apply Hf. set_solver. Qed.

(** Every operation of [vec3] other than the constructor, when it
    returns, has created and destroyed no object and has changed no object
    but the ones it may write: the receiver of a non-[const] member, the two
    vectors of [swap], and none at all for the [const] members, the
    comparisons and the free functions.  A store of 3-element arrays stays
    one. *)
Theorem vec3_calls_write_only_their_receiver (c : vec3_call T) ls h h' :
  vec3_writes c = Some ls → vec3_run c h = Ok () h' →
  dom h' = dom h ∧
  (∀ l, l ∉ ls → h' !! l = h !! l) ∧
  (∀ n, well_shaped n h → well_shaped n h') ∧
  (ls = [] → h' = h).
Proof.
  intros Hw E. destruct (vec3_run_keeps c ls Hw h () h' E) as (Hd & Hf & Hs).
  do 3 (split; [done|]). intros ->. by apply nothing_written.
Qed.

(** Every operation of [vec], when it returns, has created and destroyed
    no object and has changed no object but the ones it may write: the
    receiver of a non-[const] member, the two vectors of [swap], and none at
    all for the [const] members, the comparisons and the free functions.  A
    store of [n]-element arrays stays one. *)
Theorem vec_calls_write_only_their_receiver N (c : vec_call T) h h' :
  vec_run N c h = Ok () h' →
  dom h' = dom h ∧
  (∀ l, l ∉ vec_writes c → h' !! l = h !! l) ∧
  (∀ n, well_shaped n h → well_shaped n h') ∧
  (vec_writes c = [] → h' = h).
Proof.
  intros E. destruct (vec_run_keeps N c h () h' E) as (Hd & Hf & Hs).
  do 3 (split; [done|]). intros Hw. rewrite Hw in Hf. by apply nothing_written.
Qed.

End frames_of_calls.

Lemma vec3_calls_write_only_their_receiver_witness :
  dom (<[0:=[5; 7; 9]%Z]> int_store) = dom int_store ∧
  (∀ l, l ∉ [0] → <[0:=[5; 7; 9]%Z]> int_store !! l = int_store !! l) ∧
  (∀ n, well_shaped n int_store → well_shaped n (<[0:=[5; 7; 9]%Z]> int_store)) ∧
  ([0] = [] → <[0:=[5; 7; 9]%Z]> int_store = int_store).
Proof.
  apply (vec3_calls_write_only_their_receiver (T:=Z) (PlusAssign3 Z 0 1) [0]
           int_store); reflexivity.
Defined.

Lemma vec_calls_write_only_their_receiver_witness :
  dom (<[1:=[3; 3; 3]%Z]> int_store) = dom int_store ∧
  (∀ l, l ∉ vec_writes (MinusAssignN Z 1 0) →
     <[1:=[3; 3; 3]%Z]> int_store !! l = int_store !! l) ∧
  (∀ n, well_shaped n int_store → well_shaped n (<[1:=[3; 3; 3]%Z]> int_store)) ∧
  (vec_writes (MinusAssignN Z 1 0) = [] → <[1:=[3; 3; 3]%Z]> int_store = int_store).
Proof.
  apply (vec_calls_write_only_their_receiver (T:=Z) 3 (MinusAssignN Z 1 0)
           int_store).
  reflexivity.
Defined.

(** ** [magnitude2] and [dot] *)

Section dot.
Context `{Elem T}.
Implicit Types (h : gmap loc (list T)) (p q : list T).

Lemma load_cases h (l : loc) i :
  (∃ t, load l i h = Ok t h) ∨ load l i h = Undefined.
Proof.
  unfold load, read, mbind, M_bind, bind. destruct (h !! l) as [p|]; [|by right].
  destruct (p !! i); [left; by eexists|by right].
Qed.

Lemma bind_undefined {A B} (m : M T A) (k : A → M T B) h :
  m h = Undefined → (m ≫= k) h = Undefined.
Proof. intros E. unfold mbind, M_bind, bind. by rewrite E. Qed.

(** On a [vec3], [v.magnitude2()] is [v.dot(v)] and [v.magnitude()] is its
    square root, in every store: also where the vector is dead, both calls
    end alike. *)
Theorem magnitude2_is_dot_with_itself h (this : loc) :
  vec3.magnitude2 this h = vec3.dot this this h ∧
  vec3.magnitude this h = (m ← vec3.dot this this; ret (tsqrt m)) h.
Proof.
  assert (vec3.magnitude2 this h = vec3.dot this this h) as E3.
  { unfold vec3.magnitude2, vec3.dot.
    destruct (load_cases h this 0) as [[a Ea]|Ea],
             (load_cases h this 1) as [[b Eb]|Eb],
             (load_cases h this 2) as [[c Ec]|Ec];
      repeat first [erewrite bind_ok by eassumption
                   |erewrite bind_undefined by eassumption]; done. }
  split; [done|]. unfold vec3.magnitude, mbind, M_bind, bind. by rewrite E3.
Qed.

(** Where [T]'s multiplication commutes, [a.dot(b)] is [b.dot(a)] on
    [vec3], in every store. *)
Theorem dot_is_symmetric h (a b : loc) :
  (∀ x y, tmul x y = tmul y x) → vec3.dot a b h = vec3.dot b a h.
Proof.
  intros Hc. unfold vec3.dot.
  destruct (load_cases h a 0) as [[a0 Ea0]|Ea0],
           (load_cases h b 0) as [[b0 Eb0]|Eb0],
           (load_cases h a 1) as [[a1 Ea1]|Ea1],
           (load_cases h b 1) as [[b1 Eb1]|Eb1],
           (load_cases h a 2) as [[a2 Ea2]|Ea2],
           (load_cases h b 2) as [[b2 Eb2]|Eb2];
    repeat first [erewrite bind_ok by eassumption
                 |erewrite bind_undefined by eassumption];
    try done.
  by rewrite (Hc a0), (Hc a1), (Hc a2).
Qed.

End dot.

Lemma int_mul_comm (x y : Z) : tmul x y = tmul y x.
Proof. simpl. by rewrite Z.mul_comm. Qed.

Lemma dot_is_symmetric_witness :
  vec3.dot 0 1 int_store = vec3.dot 1 0 int_store.
Proof. exact (dot_is_symmetric (T:=Z) int_store 0 1 int_mul_comm). Defined.

(** ** The two classes side by side *)

(** [vec3<int>] and [vec<int, 3>] at one store: [a += b], [b / a] and
    [a * a[2]]. *)
Lemma vec3_agrees_with_vec_witness :
  vec.plus_assign 3 0 1 int_store = vec3.plus_assign 0 1 int_store ∧
  vec.operator_divide 3 1 0 int_store = vec3.operator_divide 1 0 int_store ∧
  vec.operator_times_scalar 3 0 (Elt 0 2) int_store
  = vec3.operator_times_scalar 0 (Elt 0 2) int_store.
Proof.
  destruct (vec3_agrees_with_vec (T:=Z) int_store 0 1 _ _ _ _ _ _ eq_refl eq_refl)
    as (Hplus & _).
  destruct (vec3_agrees_with_vec (T:=Z) int_store 1 0 _ _ _ _ _ _ eq_refl eq_refl)
    as (_ & _ & _ & _ & _ & _ & _ & Hdiv & _).
  destruct (vec3_agrees_with_vec (T:=Z) int_store 0 1 _ _ _ _ _ _ eq_refl eq_refl)
    as (_ & _ & _ & _ & _ & _ & _ & _ & Hs).
  destruct (Hs (Elt 0 2) 3%Z eq_refl) as (Htimes & _).
  by repeat split.
Defined.

(** ** Adding and taking away again *)

Section round_trip.
Context `{Elem T}.
Implicit Types (h : gmap loc (list T)) (p q : list T).

Lemma zip_with_sub_add p q :
  Forall2 (λ x y, tsub (tadd x y) y = x) p q →
  zip_with tsub (zip_with tadd p q) q = p.
Proof. induction 1 as [|x y p q Hxy _ IH]; simpl; [done|]. by rewrite Hxy, IH. Qed.

(** [a += b; a -= b;] on two distinct vectors puts back the store the
    statements started in, wherever subtracting [b[i]] undoes adding it to
    [a[i]].  On one vector, [a += a; a -= a;] leaves in each element the
    difference of its double with itself instead. *)
Theorem plus_assign_then_minus_assign N h (this rhs : loc) p q :
  h !! this = Some p → h !! rhs = Some q → length p = N → length q = N →
  (this ≠ rhs → Forall2 (λ x y, tsub (tadd x y) y = x) p q →
     (vec.plus_assign N this rhs;; vec.minus_assign N this rhs) h = Ok this h ∧
     (N = 3 →
      (vec3.plus_assign this rhs;; vec3.minus_assign this rhs) h = Ok this h)) ∧
  (vec.plus_assign N this this;; vec.minus_assign N this this) h
  = Ok this (<[this:=(λ x, tsub (tadd x x) (tadd x x)) <$> p]> h).
Proof.
  intros Ep Eq Hp Hq. split.
  - intros Hne Hlaw.
    assert (<[this:=zip_with tsub (zip_with tadd p q) q]>
              (<[this:=zip_with tadd p q]> h) = h) as Hback
      by by rewrite insert_insert_eq, zip_with_sub_add, insert_id.
    split.
    + erewrite bind_ok by by apply vec_elementwise_assign.
      unfold vec.minus_assign.
      erewrite (vec_elementwise_assign N _ this rhs (zip_with tadd p q) q);
        [by rewrite Hback|apply lookup_insert_eq|by rewrite lookup_insert_ne|
         rewrite length_zip_with; lia|done].
    + intros ->.
      destruct p as [|a0 [|a1 [|a2 [|]]]]; try done.
      destruct q as [|b0 [|b1 [|b2 [|]]]]; try done.
      erewrite bind_ok by by apply vec3_elementwise_assign.
      unfold vec3.minus_assign.
      erewrite (vec3_elementwise_assign _ this rhs);
        [|apply lookup_insert_eq|by rewrite lookup_insert_ne].
      exact (f_equal (Ok this) Hback).
  - erewrite bind_ok by by apply vec_elementwise_assign.
    unfold vec.minus_assign.
    erewrite (vec_elementwise_assign N _ this this (zip_with tadd p p)
                (zip_with tadd p p));
      [|apply lookup_insert_eq|apply lookup_insert_eq|
       rewrite length_zip_with; lia..].
    rewrite insert_insert_eq. do 2 f_equal.
    clear. induction p as [|x p IH]; simpl; [done|]. by rewrite IH.
Qed.

End round_trip.

Lemma plus_assign_then_minus_assign_witness :
  ((vec.plus_assign 3 0 1;; vec.minus_assign 3 0 1) int_store = Ok 0 int_store ∧
   (vec3.plus_assign 0 1;; vec3.minus_assign 0 1) int_store = Ok 0 int_store) ∧
  (vec.plus_assign 3 0 0;; vec.minus_assign 3 0 0) int_store
  = Ok 0 (<[0:=[0; 0; 0]%Z]> int_store).
Proof.
  destruct (plus_assign_then_minus_assign (T:=Z) 3 int_store 0 1
              [1; 2; 3]%Z [4; 5; 6]%Z eq_refl eq_refl eq_refl eq_refl)
    as [Hback Hself].
  split; [|exact Hself].
  destruct Hback as [HN H3]; [lia|by repeat constructor|].
  split; [exact HN|exact (H3 eq_refl)].
Defined.

(** On doubles the round trip can lose the addend: [1 + 1e16 - 1e16] is 0. *)
Example double_round_trip_loses_small_values :
  (vec3.plus_assign 0 1;; vec3.minus_assign 0 1)
    (<[0:=[1; 1; 1]%float]> (<[1:=[1e16; 0; 0]%float]> zero_store))
  = Ok 0 (<[0:=[0; 1; 1]%float]> (<[1:=[1e16; 0; 0]%float]> zero_store)).
Proof. reflexivity. Qed.

(** ** What the compiler accepts *)

Section compiles.
Context `{Elem T}.
Implicit Types (h : gmap loc (list T)) (l : loc).

Lemma compiles_ret {A} (a : A) : compiles (T:=T) (ret a).
Proof. by intros h. Qed.

Lemma compiles_bind {A B} (m : M T A) (k : A → M T B) :
  compiles m → (∀ a, compiles (k a)) → compiles (m ≫= k).
Proof.
  intros Hm Hk h. unfold mbind, M_bind, bind.
  specialize (Hm h). destruct (m h); try done. apply Hk.
Qed.

Lemma compiles_raise {A} e : compiles (T:=T) (A:=A) (raise e).
Proof. by intros h. Qed.

Lemma compiles_undefined {A} : compiles (T:=T) (A:=A) undefined.
Proof. by intros h. Qed.

Lemma compiles_lift {A} (o : option A) : compiles (T:=T) (lift o).
Proof. intros h. by destruct o. Qed.

Lemma compiles_read l : compiles (T:=T) (read l).
Proof. intros h. unfold read. by destruct (h !! l). Qed.

Lemma compiles_write l p : compiles (T:=T) (write l p).
Proof. intros h. unfold write. by destruct (h !! l). Qed.

Lemma compiles_alloc p : compiles (T:=T) (alloc p).
Proof. by intros h. Qed.

Lemma compiles_destroy l : compiles (T:=T) (destroy l).
Proof. by intros h. Qed.

Lemma compiles_load l i : compiles (T:=T) (load l i).
Proof.
  apply compiles_bind; [apply compiles_read|]. intros p. apply (compiles_lift (p !! i)).
Qed.

Lemma compiles_store l i t : compiles (T:=T) (store l i t).
Proof.
  apply compiles_bind; [apply compiles_read|]. intros p.
  case_decide; [apply compiles_write|apply compiles_undefined].
Qed.

Lemma compiles_deref (v : tref T) : compiles (deref v).
Proof. destruct v; [apply compiles_ret|apply compiles_load]. Qed.

Lemma compiles_update l i op (e : M T T) : compiles e → compiles (update l i op e).
Proof.
  intros He. apply compiles_bind; [done|]. intros b.
  apply compiles_bind; [apply compiles_load|]. intros a. apply compiles_store.
Qed.

Lemma compiles_for_range (body : nat → M T ()) n :
  (∀ i, compiles (body i)) → ∀ i, compiles (for_range i n body).
Proof.
  intros Hb. induction n as [|n IH]; intros i; simpl; [apply compiles_ret|].
  apply compiles_bind; [apply Hb|]. intros _. apply IH.
Qed.

(** Returning a vector by value from a vector. *)
Lemma compiles_return_vector (r : loc) : compiles (T:=T) (return_vector (of_vector r)).
Proof. apply compiles_read. Qed.

Lemma compiles_by_value {A} l (body : loc → M T A) :
  (∀ v, compiles (body v)) → compiles (by_value l body).
Proof.
  intros Hb. apply compiles_bind; [apply compiles_read|]. intros p.
  apply compiles_bind; [apply compiles_alloc|]. intros v.
  apply compiles_bind; [apply Hb|]. intros r.
  apply compiles_bind; [apply compiles_destroy|]. intros _. apply compiles_ret.
Qed.

Lemma compiles_discard {A} (m : M T A) : compiles m → compiles (discard m).
Proof. intros Hm. apply compiles_bind; [done|]. intros _. apply compiles_ret. Qed.

End compiles.

Create HintDb compiles discriminated.
#[export] Hint Resolve compiles_ret compiles_raise compiles_undefined
  compiles_lift compiles_read compiles_write compiles_alloc compiles_destroy
  compiles_load compiles_store compiles_deref compiles_return_vector : compiles.

Ltac compiles_steps :=
  repeat first
    [ progress intros
    | solve [auto with compiles]
    | apply compiles_by_value
    | apply compiles_for_range
    | apply compiles_discard
    | apply compiles_update
    | apply compiles_bind
    | case_decide ].

Section accepted_calls.
Context `{Elem T}.
Implicit Types (h : gmap loc (list T)).

Lemma vec3_accepted (c : vec3_call T) :
  vec3_ill_formed_call c = false → compiles (vec3_run c).
Proof.
  destruct c; simpl; intros [=];
    unfold vec3.construct, vec3.swap, vec3.fill, vec3.x, vec3.y, vec3.z,
      vec3.set_x, vec3.set_y, vec3.set_z, vec3.normalize, vec3.mean, vec3.dot,
      vec3.cross, vec3.magnitude, vec3.sum, vec3.prod,
      vec3.minus_assign, vec3.plus_assign, vec3.times_assign,
      vec3.divide_assign, vec3.subscript, vec3.at_, vec3.throw_out_of_range,
      vec3.normalize_free, vec3.operator_plus, vec3.operator_minus,
      vec3.operator_times, vec3.operator_divide, vec3.operator_times_scalar,
      vec3.operator_divide_scalar, vec3.normalize, vec3.magnitude,
      vec3.times_assign_scalar, vec3.divide_assign_scalar, vec3.magnitude2,
      vec3.divide_assign_scalar, vec3.p_subscript;
    compiles_steps.
Qed.

Lemma vec_accepted N (c : vec_call T) :
  vec_ill_formed_call c = false → compiles (vec_run N c).
Proof.
  destruct c; simpl; intros [=];
    unfold vec.swap, vec.fill, vec.minus_assign, vec.plus_assign,
      vec.times_assign, vec.divide_assign, vec.subscript,
      vec.operator_plus, vec.operator_minus,
      vec.operator_times, vec.operator_divide, vec.operator_times_scalar,
      vec.operator_divide_scalar,
      vec.times_assign_scalar, vec.divide_assign_scalar, vec.p_subscript;
    compiles_steps.
Qed.

Lemma discard_ill_formed {A} (m : M T A) h :
  m h = IllFormed ∨ m h = Undefined →
  discard m h = IllFormed ∨ discard m h = Undefined.
Proof. unfold discard, mbind, M_bind, bind. by intros [-> | ->]; [left|right]. Qed.

(** A free function with an ill-formed body: the parameter by value is
    copied first, and reading a dead argument comes before everything. *)
Lemma by_value_rejected {A} h (a : loc) (body : loc → M T A) :
  (∀ v h1, body v h1 = IllFormed ∨ body v h1 = Undefined) →
  by_value a body h = IllFormed ∨ by_value a body h = Undefined.
Proof.
  intros Hb. unfold by_value, read, alloc, mbind, M_bind, bind. simpl.
  destruct (h !! a) as [p|]; [|by right].
  destruct (Hb (fresh (dom h)) (<[fresh (dom h):=p]> h)) as [-> | ->];
    [by left|by right].
Qed.

Lemma vec3_dot_cases h (a b : loc) :
  (∃ d, vec3.dot a b h = Ok d h) ∨ vec3.dot a b h = Undefined.
Proof.
  unfold vec3.dot.
  destruct (load_cases h a 0) as [[a0 Ea0]|Ea0],
           (load_cases h b 0) as [[b0 Eb0]|Eb0],
           (load_cases h a 1) as [[a1 Ea1]|Ea1],
           (load_cases h b 1) as [[b1 Eb1]|Eb1],
           (load_cases h a 2) as [[a2 Ea2]|Ea2],
           (load_cases h b 2) as [[b2 Eb2]|Eb2];
    repeat first [erewrite bind_ok by eassumption
                 |erewrite bind_undefined by eassumption];
    first [by right|left; by eexists].
Qed.


End accepted_calls.

(** [vec<int, 3>]: [a.sum()] and [a < b] are rejected, [a += b] is not. *)
Example calls_on_int_vectors :
  vec_run 3 (SumN Z 0) int_store = IllFormed ∧
  vec_run 3 (LtN Z 0 1) int_store = IllFormed ∧
  vec_run 3 (PlusAssignN Z 0 1) int_store = Ok () (<[0:=[5; 7; 9]%Z]> int_store).
Proof. repeat split. Qed.
